(** * Slack channel resolution (sentry/integrations/slack/notify_action.py)

    A shallow embedding of [SlackNotifyServiceAction.get_channel_id_with_timeout]
    and of the part of [SlackNotifyServiceForm.clean] that feeds it, with the
    properties of the channel resolver proved over it.

    Modelling decisions.
    - The outside world (the Slack web API, the wall clock, the logger) is an
      explicit history of events.  A request made through [session.get] is
      answered by the environment as a function of the whole history so far,
      and so is a reading of [time.time()]; the resolver appends what it does
      to the history.
    - Points in time and durations are integers in one fixed resolution;
      floating point rounding of [time.time()] is not modelled.
    - [while True] is a recursion on a fuel counter: one unit per iteration
      of the loop body.  Running out of fuel is the outcome [OutOfFuel]; an
      execution of the Python code that never returns is one that is
      [OutOfFuel] for every amount of fuel.
    - The retry-after header is read the way line 245 reads it: as the
      finite number it spells, as a spelling of nan or infinity, or as text
      that [float()] refuses.  A sleep of a negative or non-finite length is
      refused by [time.sleep]; the exception is the [IOError] of Python 2,
      for which the module is written (Python 3 raises [ValueError] or
      [OverflowError] there).
    - The JSON answer is a typed record.  A missing [result_name] key is kept
      (it raises [KeyError] at line 251); entries always carry [name] and
      [id], as the API documents.
    - A call of the logger is an event that carries the level and the
      message; the [extra] dictionaries, and the reading of the clock that
      the one at line 243 contains, are left out.  They have no part in the
      control flow. *)

From stdpp Require Import gmap strings list fin_maps.
From Stdlib Require Import ZArith Ascii.

Local Open Scope Z_scope.

(** ** Module constants (lines 17-20) *)

Definition MEMBER_PREFIX : string := "@".
Definition CHANNEL_PREFIX : string := "#".
Definition SLACK_DEFAULT_TIMEOUT : Z := 30.
(* ''.join([MEMBER_PREFIX, CHANNEL_PREFIX]) *)
Definition strip_channel_chars : string := MEMBER_PREFIX +:+ CHANNEL_PREFIX.

(** ** Data *)

(** Values of the request parameters dictionary. *)
Inductive Value : Type :=
| VStr (s : string)
| VInt (n : Z)
| VBool (b : bool).

(** [c.get("profile")] of a directory entry; an empty dictionary is a profile
    without [display_name]. *)
Record Profile : Type := mkProfile { display_name : option string }.

(** One entry [c] of [items[result_name]]. *)
Record Entry : Type := mkEntry {
  entry_name : string;               (* c["name"] *)
  entry_id : string;                 (* c["id"] *)
  entry_profile : option Profile     (* c.get("profile") *)
}.

(** [items.get("response_metadata", {})]. *)
Record Metadata : Type := mkMetadata { next_cursor : option string }.

(** What [float(retry_after)] makes of a header that is there and not
    empty. *)
Inductive RetryAfter : Type :=
| Seconds (d : Z)     (* the finite number [d], of either sign *)
| NotFinite           (* a spelling of nan or of an infinity *)
| NotANumber.         (* any other text: [float()] raises [ValueError] *)

(** What [session.get] gives back: the JSON body [items] and the one header
    the code reads.  [resp_retry_after] is [None] when the header is absent
    or empty (both are falsy at line 242), otherwise what the header
    spells. *)
Record Response : Type := mkResponse {
  resp_ok : bool;                               (* truth of items.get('ok') *)
  resp_retry_after : option RetryAfter;         (* resp.headers.get('retry-after') *)
  resp_lists : gmap string (list Entry);        (* items[result_name] *)
  resp_metadata : option Metadata               (* items.get("response_metadata") *)
}.

Inductive Level : Type := Info | Error.

(** What the resolver does to the outside world, in the order it does it. *)
Inductive Event : Type :=
| Get (url : string) (params : gmap string Value) (resp : Response)
| Sleep (seconds : Z)
| Log (level : Level) (msg : string).

(** The outside world.  [session_get h url params] is the answer to a request
    issued after the events [h]; [time_time h] is the clock after [h]. *)
Record Env : Type := mkEnv {
  slack_legacy_app : bool;          (* options.get("slack.legacy-app") is True *)
  session_get : list Event -> string -> gmap string Value -> Response;
  time_time : list Event -> Z
}.

(** [integration.metadata['access_token']]. *)
Record Integration : Type := mkIntegration { access_token : string }.

(** The local variables that live across iterations (lines 229-231). *)
Record Locals : Type := mkLocals {
  id_data : option (string * option string);
  found_duplicate : bool;
  scanned_item_count : nat
}.

(** How a piece of the function body ends. *)
Inductive Exit : Type :=
| Return (r : string * option string)   (* return (prefix, channel_id) *)
| Raise (exn : string)                  (* an uncaught exception *)
| Break                                 (* the while loop was left by break *)
| OutOfFuel.

(** A directory: (list_type, result_name, prefix). *)
Definition ListType : Type := string * string * string.

(* lines 205-210 *)
Definition LEGACY_LIST_TYPES : list ListType :=
  [ ("channels", "channels", CHANNEL_PREFIX);
    ("groups", "groups", CHANNEL_PREFIX);
    ("users", "members", MEMBER_PREFIX) ].

Definition LIST_TYPES : list ListType :=
  [ ("conversations", "channels", CHANNEL_PREFIX);
    ("users", "members", MEMBER_PREFIX) ].

(** ** String helpers *)

Fixpoint string_mem (a : ascii) (chars : string) : bool :=
  match chars with
  | EmptyString => false
  | String b chars' => if decide (a = b) then true else string_mem a chars'
  end.

(** Python's [str.lstrip(chars)]: drop leading characters that occur in
    [chars]. *)
Fixpoint lstrip (chars : string) (s : string) : string :=
  match s with
  | EmptyString => EmptyString
  | String a s' => if string_mem a chars then lstrip chars s' else s
  end.

(** Truthiness of a cursor (line 272): [None] and the empty string are falsy. *)
Definition truthy_cursor (c : option string) : option string :=
  match c with
  | Some s => if decide (s = "") then None else Some s
  | None => None
  end.

(** Line 245, [time.sleep(float(retry_after))]: the length slept, or the
    exception raised by [float] or by [time.sleep]. *)
Definition sleep_length (retry_after : RetryAfter) : string + Z :=
  match retry_after with
  | Seconds d => if d <? 0 then inl "IOError" else inr d
  | NotFinite => inl "IOError"
  | NotANumber => inl "ValueError"
  end.

(* lines 229-231 *)
Definition initial_locals : Locals := mkLocals None false 0.

(** ** The resolver *)

Section Resolver.

Variable env : Env.
Variable name : string.                       (* the target name *)
Variable channels_payload : gmap string Value.
Variable time_to_quit : Z.

(** [profile and profile.get("display_name") == name] (lines 260-261). *)
Definition display_name_matches (c : Entry) : bool :=
  match entry_profile c with
  | Some profile => bool_decide (display_name profile = Some name)
  | None => false
  end.

Definition name_matches (c : Entry) : bool :=
  bool_decide (entry_name c = name).

(** Lines 259-265: the bookkeeping of display names for one entry. *)
Definition note_display_name (list_type prefix : string) (c : Entry)
    (l : Locals) : Locals :=
  if decide (list_type = "users") then
    if display_name_matches c then
      match id_data l with
      | Some _ =>
          mkLocals (id_data l) true (scanned_item_count l)
      | None =>
          mkLocals (Some (prefix, Some (entry_id c))) (found_duplicate l)
                   (scanned_item_count l)
      end
    else l
  else l.

(** Lines 251-265: [for c in items[result_name]].  The first component is
    the value returned from inside the loop, if any. *)
Fixpoint scan_items (list_type prefix : string) (cs : list Entry)
    (l : Locals) : option (string * option string) * Locals :=
  match cs with
  | [] => (None, l)
  | c :: cs' =>
      let l1 := mkLocals (id_data l) (found_duplicate l)
                         (S (scanned_item_count l)) in
      if name_matches c then (Some (prefix, Some (entry_id c)), l1)
      else scan_items list_type prefix cs' (note_display_name list_type prefix c l1)
  end.

Definition endpoint (list_type : string) : string :=
  "/" +:+ list_type +:+ ".list".

Definition url_of (list_type : string) : string :=
  "https://slack.com/api" +:+ endpoint list_type.

(* dict(channels_payload, cursor=cursor, limit=100) *)
Definition page_params (cursor : string) : gmap string Value :=
  <["limit" := VInt 100]> (<["cursor" := VStr cursor]> channels_payload).

Definition rate_limited_logs (list_type : string) : list Event :=
  [ Log Info "rule.slack";
    Log Info ("rule.slack." +:+ list_type +:+ "_list_rate_limited") ].

(* items.get("response_metadata", {}).get("next_cursor", None) *)
Definition cursor_of (resp : Response) : option string :=
  match resp_metadata resp with
  | Some m => next_cursor m
  | None => None
  end.

(** Line 238: the answer to the request for the page at [cursor], issued
    after the history [h], and the history once it has been issued. *)
Definition answer (list_type cursor : string) (h : list Event) : Response :=
  session_get env h (url_of list_type) (page_params cursor).

Definition asked (list_type cursor : string) (h : list Event) : list Event :=
  h ++ [Get (url_of list_type) (page_params cursor) (answer list_type cursor h)].

(** Lines 235-273: one iteration of the body of [while True] for the
    directory [(list_type, result_name, prefix)], entered with [cursor],
    the locals [l] and the history [h].  [inl] is the state in which the
    next iteration starts (after [continue] at line 246 or after falling
    off the end of the body); [inr] is how the loop is left. *)
Definition loop_body (list_type result_name prefix : string)
    (cursor : string) (l : Locals) (h : list Event)
    : (string * Locals * list Event) + (Exit * Locals * list Event) :=
  let resp := answer list_type cursor h in
  let h1 := asked list_type cursor h in
  if negb (resp_ok resp) then
    match resp_retry_after resp with
    | Some retry_after =>
        match sleep_length retry_after with
        | inr d =>
            inl (cursor, l, h1 ++ rate_limited_logs list_type ++ [Sleep d])
        | inl exn =>
            inr (Raise exn, l, h1 ++ rate_limited_logs list_type)
        end
    | None =>
        inr (Return (prefix, None), l,
             h1 ++ [Log Error ("rule.slack." +:+ list_type +:+ "_list_failed")])
    end
  else
    match resp_lists resp !! result_name with
    | None => inr (Raise "KeyError", l, h1)
    | Some cs =>
        match scan_items list_type prefix cs l with
        | (Some r, l') => inr (Return r, l', h1)
        | (None, l') =>
            if time_to_quit <? time_time env h1 then
              inr (Return (prefix, None), l',
                   h1 ++ [Log Error ("rule.slack." +:+ list_type +:+ "_list_timed_out")])
            else
              match truthy_cursor (cursor_of resp) with
              | None => inr (Break, l', h1)
              | Some cursor' => inl (cursor', l', h1)
              end
        end
    end.

(** Lines 234-273: the [while True] loop over the pages of one directory. *)
Fixpoint page_loop (fuel : nat) (list_type result_name prefix : string)
    (cursor : string) (l : Locals) (h : list Event)
    : Exit * Locals * list Event :=
  match fuel with
  | O => (OutOfFuel, l, h)
  | S fuel' =>
      match loop_body list_type result_name prefix cursor l h with
      | inl (cursor', l', h') =>
          page_loop fuel' list_type result_name prefix cursor' l' h'
      | inr r => r
      end
  end.

(** Lines 274-277, and the next iteration of the [for] loop: what follows
    the while loop of the directory with prefix [prefix]. *)
Definition after_pages (prefix : string)
    (next : Locals -> list Event -> Exit * Locals * list Event)
    (r : Exit * Locals * list Event) : Exit * Locals * list Event :=
  match r with
  | (Break, l, h) =>
      if found_duplicate l then (Return (prefix, None), l, h)
      else match id_data l with
           | Some data => (Return data, l, h)
           | None => next l h
           end
  | _ => r
  end.

(** Lines 232-279: [for list_type, result_name, prefix in list_types],
    followed by the final return.  [prefix_var] is the binding of the
    loop variable [prefix] left by the iterations done so far. *)
Fixpoint for_list_types (fuel : nat) (list_types : list ListType)
    (prefix_var : option string) (l : Locals) (h : list Event)
    : Exit * Locals * list Event :=
  match list_types with
  | [] =>
      match prefix_var with
      | Some prefix => (Return (prefix, None), l, h)
      | None => (Raise "UnboundLocalError", l, h)
      end
  | (list_type, result_name, prefix) :: rest =>
      after_pages prefix (for_list_types fuel rest (Some prefix))
        (page_loop fuel list_type result_name prefix "" l h)
  end.

(** The rest of an execution that stands at the head of the while loop of
    the directory [d] with [cursor] and [n] iterations left for it, and has
    the directories [rest] still to visit, with [fuel] iterations each. *)
Definition in_progress (n fuel : nat) (d : ListType) (rest : list ListType)
    (cursor : string) (l : Locals) (h : list Event)
    : Exit * Locals * list Event :=
  let '(list_type, result_name, prefix) := d in
  after_pages prefix (for_list_types fuel rest (Some prefix))
    (page_loop n list_type result_name prefix cursor l h).

(** [at_loop_head fuel list_types n d rest cursor l h]: the execution over
    [list_types], with [fuel] iterations for each directory, arrives at the
    head of the while loop of [d] with [cursor], [l] and [h], having [n]
    iterations left and [rest] still to visit. *)
Inductive at_loop_head (fuel : nat) (list_types : list ListType)
    : nat -> ListType -> list ListType -> string -> Locals -> list Event -> Prop :=
| at_start d rest :
    list_types = d :: rest ->
    at_loop_head fuel list_types fuel d rest "" initial_locals []
| at_next_page n list_type result_name prefix rest cursor l h cursor' l' h' :
    at_loop_head fuel list_types (S n) (list_type, result_name, prefix) rest cursor l h ->
    loop_body list_type result_name prefix cursor l h = inl (cursor', l', h') ->
    at_loop_head fuel list_types n (list_type, result_name, prefix) rest cursor' l' h'
| at_next_list_type n list_type result_name prefix d rest cursor l h l' h' :
    at_loop_head fuel list_types (S n) (list_type, result_name, prefix) (d :: rest) cursor l h ->
    loop_body list_type result_name prefix cursor l h = inr (Break, l', h') ->
    found_duplicate l' = false ->
    id_data l' = None ->
    at_loop_head fuel list_types fuel d rest "" l' h'.

(** The eight ways through the body of the while loop. *)
Inductive body_case (lt rn p c : string) (l : Locals) (h : list Event)
    : (string * Locals * list Event) + (Exit * Locals * list Event) -> Prop :=
| case_rate_limited retry_after d :
    resp_ok (answer lt c h) = false ->
    resp_retry_after (answer lt c h) = Some retry_after ->
    sleep_length retry_after = inr d ->
    body_case lt rn p c l h
      (inl (c, l, asked lt c h ++ rate_limited_logs lt ++ [Sleep d]))
| case_failed :
    resp_ok (answer lt c h) = false ->
    resp_retry_after (answer lt c h) = None ->
    body_case lt rn p c l h
      (inr (Return (p, None), l,
            asked lt c h ++ [Log Error ("rule.slack." +:+ lt +:+ "_list_failed")]))
| case_key_error :
    resp_ok (answer lt c h) = true ->
    resp_lists (answer lt c h) !! rn = None ->
    body_case lt rn p c l h (inr (Raise "KeyError", l, asked lt c h))
| case_found cs r l' :
    resp_ok (answer lt c h) = true ->
    resp_lists (answer lt c h) !! rn = Some cs ->
    scan_items lt p cs l = (Some r, l') ->
    body_case lt rn p c l h (inr (Return r, l', asked lt c h))
| case_timed_out cs l' :
    resp_ok (answer lt c h) = true ->
    resp_lists (answer lt c h) !! rn = Some cs ->
    scan_items lt p cs l = (None, l') ->
    time_to_quit < time_time env (asked lt c h) ->
    body_case lt rn p c l h
      (inr (Return (p, None), l',
            asked lt c h ++ [Log Error ("rule.slack." +:+ lt +:+ "_list_timed_out")]))
| case_break cs l' :
    resp_ok (answer lt c h) = true ->
    resp_lists (answer lt c h) !! rn = Some cs ->
    scan_items lt p cs l = (None, l') ->
    time_time env (asked lt c h) <= time_to_quit ->
    truthy_cursor (cursor_of (answer lt c h)) = None ->
    body_case lt rn p c l h (inr (Break, l', asked lt c h))
| case_next_page cs l' c' :
    resp_ok (answer lt c h) = true ->
    resp_lists (answer lt c h) !! rn = Some cs ->
    scan_items lt p cs l = (None, l') ->
    time_time env (asked lt c h) <= time_to_quit ->
    truthy_cursor (cursor_of (answer lt c h)) = Some c' ->
    body_case lt rn p c l h (inl (c', l', asked lt c h))
| case_sleep_refused retry_after exn :
    resp_ok (answer lt c h) = false ->
    resp_retry_after (answer lt c h) = Some retry_after ->
    sleep_length retry_after = inl exn ->
    body_case lt rn p c l h
      (inr (Raise exn, l, asked lt c h ++ rate_limited_logs lt)).

End Resolver.

(* lines 214-225 *)
Definition token_payload (integration : Integration) : gmap string Value :=
  {[ "token" := VStr (access_token integration) ]}.

Definition base_channels_payload (integration : Integration) : gmap string Value :=
  <["exclude_members" := VBool true]>
    (<["exclude_archived" := VBool true]> (token_payload integration)).

Definition list_types_of (env : Env) : list ListType :=
  if slack_legacy_app env then LEGACY_LIST_TYPES else LIST_TYPES.

Definition channels_payload_of (env : Env) (integration : Integration)
    : gmap string Value :=
  if slack_legacy_app env then base_channels_payload integration
  else <["types" := VStr "public_channel,private_channel"]>
         (base_channels_payload integration).

(** Lines 195-279. *)
Definition get_channel_id_with_timeout (fuel : nat) (env : Env)
    (integration : Integration) (name : string) (timeout : Z)
    : Exit * Locals * list Event :=
  let time_to_quit := time_time env [] + timeout in
  for_list_types env name (channels_payload_of env integration) time_to_quit
    fuel (list_types_of env) None initial_locals [].

(** ** The form (lines 43-69) and the transformer it calls (lines 183-193) *)

(** [Integration.objects.get(provider='slack', ..., id=integration_id)] over
    the table [integrations]; [None] is [Integration.DoesNotExist]. *)
Definition get_channel_id (fuel : nat) (env : Env)
    (integrations : gmap string Integration) (integration_id : option string)
    (name : string) : option (Exit * Locals * list Event) :=
  match integration_id ≫= (integrations !!.) with
  | None => None
  | Some integration =>
      Some (get_channel_id_with_timeout fuel env integration name SLACK_DEFAULT_TIMEOUT)
  end.

Inductive CleanExit : Type :=
| CleanReturn (channel : string) (channel_id : option string)
    (* cleaned_data['channel'], cleaned_data['channel_id'] *)
| CleanValidationError (channel : string)
| CleanRaise (exn : string)
| CleanOutOfFuel.

(** [workspace] and [channel] are the two cleaned fields the method reads;
    a field that failed its own validation is absent. *)
Definition clean (fuel : nat) (env : Env) (integrations : gmap string Integration)
    (workspace : option string) (channel_field : option string)
    : CleanExit * list Event :=
  let channel := lstrip strip_channel_chars (default "" channel_field) in
  match get_channel_id fuel env integrations workspace channel with
  | None =>
      match workspace with
      | Some _ => (CleanValidationError channel, [])
      | None => (CleanRaise "TypeError", [])       (* None + channel *)
      end
  | Some (Return (channel_prefix, channel_id), _, h) =>
      match channel_id, workspace with
      | None, Some _ => (CleanValidationError channel, h)
      | _, _ => (CleanReturn (channel_prefix +:+ channel) channel_id, h)
      end
  | Some (Raise exn, _, h) => (CleanRaise exn, h)
  | Some (_, _, h) => (CleanOutOfFuel, h)
  end.

(** ** Scripted environments

    Concrete outside worlds on which the definitions are evaluated: the
    [k]-th request is answered by the [k]-th element of [answers], and the
    clock after [k] requests reads the [k]-th element of [clock]. *)

Definition is_get (e : Event) : bool :=
  match e with Get _ _ _ => true | _ => false end.

Definition count_gets (h : list Event) : nat := length (filter is_get h).

Definition failure : Response := mkResponse false None ∅ None.

Definition rate_limit (retry_after : Z) : Response :=
  mkResponse false (Some (Seconds retry_after)) ∅ None.

Definition page (result_name : string) (cs : list Entry) (next : string) : Response :=
  mkResponse true None {[ result_name := cs ]} (Some (mkMetadata (Some next))).

Definition scripted (legacy : bool) (answers : list Response) (clock : list Z) : Env :=
  mkEnv legacy
        (fun h _ _ => nth (count_gets h) answers failure)
        (fun h => nth (count_gets h) clock 0).

Definition channel (n i : string) : Entry := mkEntry n i None.

Definition member (n i dn : string) : Entry :=
  mkEntry n i (Some (mkProfile (Some dn))).

Definition the_integration : Integration := mkIntegration "xoxb-token".

(** The first request fails, without a retry-after header. *)
Definition failing_world : Env := scripted false [failure] [].

(** The first page of conversations arrives when the deadline has passed. *)
Definition late_world : Env :=
  scripted false [page "channels" [channel "random" "C2"] "p2"] [0; 31].

(** The first request is rate limited for two seconds; the clock is past
    the deadline from then on. *)
Definition rate_limited_world : Env :=
  scripted false
    [rate_limit 2; page "channels" [channel "general" "C1"] ""] [0; 100; 100].

(** Two members called jdoe by display name on the first page of users, and
    the member named jdoe in the middle of the second. *)
Definition paged_members_world : Env :=
  scripted false
    [ page "channels" [] "";
      page "members" [member "a" "U1" "jdoe"; member "b" "U2" "jdoe"] "p2";
      page "members" [member "x" "U9" "zz"; member "jdoe" "U3" "other";
                      member "y" "U4" "jdoe"] "p3" ]
    [].

(** One member called jdoe by display name, on the only page of users,
    which arrives when the deadline has passed. *)
Definition late_member_world : Env :=
  scripted false
    [ page "channels" [] "";
      page "members" [member "a" "U1" "jdoe"; member "b" "U2" "other"] "" ]
    [0; 0; 31].

(** Two members called jdoe by display name on the only page of users. *)
Definition duplicate_members_world : Env :=
  scripted false
    [ page "channels" [] "";
      page "members" [member "a" "U1" "jdoe"; member "b" "U2" "jdoe"] "" ]
    [].

(** Legacy mode; the channel general is on the first page of channels. *)
Definition legacy_world : Env :=
  scripted true [page "channels" [channel "general" "C1"] ""] [].

(** Every request is rate limited, and the deadline has long passed. *)
Definition jammed_world : Env :=
  mkEnv false (fun _ _ _ => rate_limit 1) (fun _ => 1000).

Definition the_integrations : gmap string Integration :=
  {[ "1" := the_integration ]}.

(** The first request is rate limited with a header that spells -5. *)
Definition negative_header_world : Env :=
  scripted false
    [rate_limit (-5); page "channels" [channel "general" "C1"] ""] [].

(** The first request is rate limited with a header that spells a date. *)
Definition dated_header_world : Env :=
  scripted false
    [mkResponse false (Some NotANumber) ∅ None;
     page "channels" [channel "general" "C1"] ""] [].

(** The first answer is [ok] but holds no list at all. *)
Definition listless_world : Env :=
  scripted false [mkResponse true None ∅ None] [].

(** One member called jdoe by display name on the only page of users, in
    good time. *)
Definition single_member_world : Env :=
  scripted false
    [ page "channels" [] "";
      page "members" [member "a" "U1" "jdoe"; member "b" "U2" "other"] "" ]
    [].

(** Legacy mode; the one channel has a profile with jdoe as display name. *)
Definition legacy_profile_world : Env :=
  scripted true
    [ page "channels" [member "x" "C7" "jdoe"] "";
      page "groups" [] "";
      page "members" [] "" ]
    [].

(** ** Reading a history *)

(** The entries of the pages of the directory [list_type] that the history
    shows as delivered: [items[result_name]] of every answer with [ok]. *)
Definition page_entries (list_type result_name : string) (e : Event) : list Entry :=
  match e with
  | Get url _ resp =>
      if decide (url = url_of list_type) then
        if resp_ok resp then default [] (resp_lists resp !! result_name) else []
      else []
  | _ => []
  end.

Definition scanned_entries (list_type result_name : string) (h : list Event)
    : list Entry :=
  flat_map (page_entries list_type result_name) h.

(** The member entries, in the order of delivery, whose display name is the
    target. *)
Definition candidates (name : string) (h : list Event) : list Entry :=
  filter (fun c => display_name_matches name c) (scanned_entries "users" "members" h).

(** What lines 262-265 maintain: [id_data] is the first of the entries [m]
    with a matching display name, and [found_duplicate] says that there are
    at least two. *)
Definition tracks (m : list Entry) (l : Locals) : Prop :=
  id_data l = (fun c => (MEMBER_PREFIX, Some (entry_id c))) <$> head m /\
  found_duplicate l = bool_decide (2 <= length m)%nat.

Definition bookkeeping (name : string) (l : Locals) (h : list Event) : Prop :=
  tracks (candidates name h) l.

(** The directories of either mode. *)
Definition known (d : ListType) : Prop :=
  d ∈ LIST_TYPES \/ d ∈ LEGACY_LIST_TYPES.



(** The parameters of a request name the page size 100. *)
Definition asks_for_100 (e : Event) : Prop :=
  match e with
  | Get _ params _ => params !! "limit" = Some (VInt 100)
  | _ => True
  end.

(** The parameters of a request leave the page size out. *)
Definition leaves_page_size_out (e : Event) : Prop :=
  match e with
  | Get _ params _ => params !! "limit" = None
  | _ => True
  end.

(** All characters of [s] occur in [chars]. *)
Fixpoint all_in (chars : string) (s : string) : bool :=
  match s with
  | EmptyString => true
  | String a s' => string_mem a chars && all_in chars s'
  end.

(** [stands_at fuel env integration name timeout n d rest cursor l h]: the
    execution of [get_channel_id_with_timeout] with these arguments stands
    at the head of the while loop of [d], with [n] units of fuel left. *)
Definition stands_at (fuel : nat) (env : Env) (integration : Integration)
    (name : string) (timeout : Z)
    : nat -> ListType -> list ListType -> string -> Locals -> list Event -> Prop :=
  at_loop_head env name (channels_payload_of env integration)
    (time_time env [] + timeout) fuel (list_types_of env).

(** The two origins of a returned id [i] with prefix [p], read off the final
    history [h].  By name: the execution stood at a loop head, the page
    delivered there holds an entry whose [name] is the target, [i] is the id
    of the first such entry and [h] ends with the request for that page. *)
Definition found_by_name (fuel : nat) (env : Env) (integration : Integration)
    (name : string) (timeout : Z) (p i : string) (h : list Event) : Prop :=
  exists n lt rn rest c l0 h0 before c0 after,
    stands_at fuel env integration name timeout (S n) (lt, rn, p) rest c l0 h0 /\
    h = asked env (channels_payload_of env integration) lt c h0 /\
    resp_ok (answer env (channels_payload_of env integration) lt c h0) = true /\
    resp_lists (answer env (channels_payload_of env integration) lt c h0) !! rn =
      Some (before ++ c0 :: after) /\
    Forall (fun b => entry_name b <> name) before /\
    entry_name c0 = name /\ entry_id c0 = i.

(** By display name: the execution stood at a loop head of the members
    directory, the page delivered there is the last one (no next cursor) and
    was scanned within the deadline, and exactly one of the member entries
    delivered over all pages has the target as display name; [i] is its id. *)
Definition found_by_display_name (fuel : nat) (env : Env) (integration : Integration)
    (name : string) (timeout : Z) (p i : string) (h : list Event) : Prop :=
  exists n rest c l0 h0 c0,
    p = MEMBER_PREFIX /\
    stands_at fuel env integration name timeout (S n)
      ("users", "members", MEMBER_PREFIX) rest c l0 h0 /\
    h = asked env (channels_payload_of env integration) "users" c h0 /\
    resp_ok (answer env (channels_payload_of env integration) "users" c h0) = true /\
    truthy_cursor
      (cursor_of (answer env (channels_payload_of env integration) "users" c h0)) = None /\
    time_time env h <= time_time env [] + timeout /\
    candidates name h = [c0] /\ entry_id c0 = i.

(** How the function ends once the while loop of the directory with [prefix]
    has been left by [e0] with the locals [l], when [rest] are the directories
    still to visit (lines 274-279). *)
Inductive ends_with (prefix : string) (rest : list ListType) (l : Locals)
    : Exit -> Exit -> Prop :=
| ends_return r :
    ends_with prefix rest l (Return r) (Return r)
| ends_raise exn :
    ends_with prefix rest l (Raise exn) (Raise exn)
| ends_duplicate :
    found_duplicate l = true ->
    ends_with prefix rest l Break (Return (prefix, None))
| ends_candidate data :
    found_duplicate l = false ->
    id_data l = Some data ->
    ends_with prefix rest l Break (Return data)
| ends_exhausted :
    found_duplicate l = false ->
    id_data l = None ->
    rest = [] ->
    ends_with prefix rest l Break (Return (prefix, None)).

(** The durations slept, and the retry-after values of the rate limited
    answers that line 245 accepts (non-negative numbers), both in the order
    of the history. *)
Definition sleeps (h : list Event) : list Z :=
  flat_map (fun e => match e with Sleep d => [d] | _ => [] end) h.


(** The parameters of a request hold the payload of lines 214-225: the
    token, the two exclusions, and the filter on types in the current mode
    only. *)
Definition carries_payload (env : Env) (integration : Integration) (e : Event) : Prop :=
  match e with
  | Get _ params _ =>
      params !! "token" = Some (VStr (access_token integration)) /\
      params !! "exclude_archived" = Some (VBool true) /\
      params !! "exclude_members" = Some (VBool true) /\
      params !! "types" =
        (if slack_legacy_app env then None
         else Some (VStr "public_channel,private_channel")) /\
      exists cursor, params !! "cursor" = Some (VStr cursor)
  | _ => True
  end.

(** ** The action (lines 96-168)

    [get_tags_list] and [after] of [SlackNotifyServiceAction].  The options
    of the rule are the three that these methods read.  What [str.strip()]
    removes depends on the type of the string (byte strings: the six of
    [string.whitespace]; unicode strings: more), so the set is a parameter
    of the model. *)

(** Python's [str.rstrip(chars)]. *)
Fixpoint rstrip (chars : string) (s : string) : string :=
  match s with
  | EmptyString => EmptyString
  | String a s' =>
      match rstrip chars s' with
      | EmptyString => if string_mem a chars then EmptyString else String a EmptyString
      | rest => String a rest
      end
  end.

(** Python's [str.strip(chars)]. *)
Definition strip (chars : string) (s : string) : string :=
  rstrip chars (lstrip chars s).

(** Python's [str.split(sep)] for a separator of one character. *)
Fixpoint split (sep : ascii) (s : string) : list string :=
  match s with
  | EmptyString => [EmptyString]
  | String a s' =>
      if decide (a = sep) then EmptyString :: split sep s'
      else match split sep s' with
           | piece :: pieces => String a piece :: pieces
           | [] => [String a EmptyString]
           end
  end.

(** Python's [sep.join(pieces)]. *)
Fixpoint join (sep : string) (pieces : list string) : string :=
  match pieces with
  | [] => EmptyString
  | [piece] => piece
  | piece :: pieces' => piece +:+ sep +:+ join sep pieces'
  end.

Fixpoint count_char (a : ascii) (s : string) : nat :=
  match s with
  | EmptyString => 0
  | String b s' => if decide (b = a) then S (count_char a s') else count_char a s'
  end.

(** The first, and the last, character of [s] occurs in [chars]. *)
Definition starts_in (chars : string) (s : string) : bool :=
  match s with
  | EmptyString => false
  | String a _ => string_mem a chars
  end.

Fixpoint ends_in (chars : string) (s : string) : bool :=
  match s with
  | EmptyString => false
  | String a EmptyString => string_mem a chars
  | String _ s' => ends_in chars s'
  end.

(** [self.get_option(...)] for the options read by the action. *)
Record Options : Type := mkOptions {
  option_workspace : option string;       (* self.get_option('workspace') *)
  option_channel_id : option string;      (* self.get_option('channel_id') *)
  option_tags : option string             (* self.get_option('tags', '') *)
}.

(** Lines 167-168. *)
Definition get_tags_list (whitespace : string) (options : Options) : list string :=
  strip whitespace <$> split "," (default EmptyString (option_tags options)).

(** What [self.future(send_notification, key=key)] holds: the key, and the
    variables that the closure [send_notification] captures (lines 122-130). *)
Record Future : Type := mkFuture {
  future_key : string;
  future_token : string;       (* integration.metadata['access_token'] *)
  future_channel : string;     (* the payload's 'channel' *)
  future_tags : gset string
}.

Inductive ActionEvent : Type :=
| LogWarning (msg : string)
| MetricsIncr (key : string).

(** Lines 96-147: the futures that the generator yields, and what it logs
    and counts on the way.  [is_ignored] is [event.group.is_ignored()]. *)
Definition after (whitespace : string) (is_ignored : bool) (options : Options)
    (integrations : gmap string Integration) : list Future * list ActionEvent :=
  if is_ignored then ([], [])
  else
    let integration_id := option_workspace options in
    let channel := option_channel_id options in
    let tags : gset string := list_to_set (get_tags_list whitespace options) in
    match integration_id, integration_id ≫= (integrations !!.) with
    | Some id, Some integration =>
        match channel with
        | None => ([], [LogWarning "rule.fail.slack_post"])
        | Some channel =>
            if decide (channel = EmptyString)
            then ([], [LogWarning "rule.fail.slack_post"])
            else
              let key := "slack:" +:+ id +:+ ":" +:+ channel in
              ([mkFuture key (access_token integration) channel tags],
               [MetricsIncr "notifications.sent"])
        end
    | _, _ => ([], [])       (* Integration.DoesNotExist *)
    end.

(** [string.whitespace], what [strip()] removes from a byte string. *)
Definition ascii_whitespace : string :=
  String "009" (String "010" (String "011" (String "012" (String "013" " ")))).

(** The options of a rule for workspace 1 and channel C1. *)
Definition the_options : Options :=
  mkOptions (Some "1") (Some "C1") (Some "environment, user ,,my_tag").

Definition other_options : Options :=
  mkOptions (Some "1") (Some "C1") None.

(** * Properties *)

(** ** One iteration of the loop body, by cases *)

Section Facts.

Context (env : Env) (name : string) (payload : gmap string Value) (ttq : Z).

Local Abbreviation reply := (answer env payload).
Local Abbreviation sent := (asked env payload).
Local Abbreviation body := (loop_body env name payload ttq).
Local Abbreviation pages := (page_loop env name payload ttq).
Local Abbreviation dirs := (for_list_types env name payload ttq).
Local Abbreviation rest_of_run := (in_progress env name payload ttq).
Local Abbreviation head_of_loop := (at_loop_head env name payload ttq).

Lemma loop_body_cases lt rn p c l h :
  body_case env name payload ttq lt rn p c l h (body lt rn p c l h).
Proof.
  unfold loop_body.
  destruct (resp_ok (reply lt c h)) eqn:Hok; simpl.
  - destruct (resp_lists (reply lt c h) !! rn) as [cs|] eqn:Hcs.
    + destruct (scan_items name lt p cs l) as [[r|] l'] eqn:Hscan.
      * by eapply case_found.
      * destruct (ttq <? time_time env (sent lt c h)) eqn:Ht.
        -- apply Z.ltb_lt in Ht. by eapply case_timed_out.
        -- apply Z.ltb_ge in Ht.
           destruct (truthy_cursor (cursor_of (reply lt c h))) eqn:Hc.
           ++ by eapply case_next_page.
           ++ by eapply case_break.
    + by apply case_key_error.
  - destruct (resp_retry_after (reply lt c h)) as [retry_after|] eqn:Hr.
    + destruct (sleep_length retry_after) as [exn|d] eqn:Hsleep.
      * by eapply case_sleep_refused.
      * by eapply case_rate_limited.
    + by apply case_failed.
Qed.

Lemma sleep_length_seconds d : 0 <= d -> sleep_length (Seconds d) = inr d.
Proof.
  intros Hd. unfold sleep_length.
  by rewrite (proj2 (Z.ltb_ge d 0) Hd).
Qed.

Lemma sleep_length_inr retry_after d :
  sleep_length retry_after = inr d -> retry_after = Seconds d /\ 0 <= d.
Proof.
  destruct retry_after as [d'| |]; simpl; try done.
  destruct (d' <? 0) eqn:Hd'; [ done | ].
  intros [= ->]. split; [ done | by apply Z.ltb_ge ].
Qed.

Lemma loop_body_not_out_of_fuel lt rn p c l h l' h' :
  body lt rn p c l h <> inr (OutOfFuel, l', h').
Proof. destruct (loop_body_cases lt rn p c l h); congruence. Qed.

(** ** Loop heads and the run they belong to *)

Lemma rest_of_run_next_page n fuel lt rn p rest c l h c' l' h' :
  body lt rn p c l h = inl (c', l', h') ->
  rest_of_run (S n) fuel (lt, rn, p) rest c l h =
  rest_of_run n fuel (lt, rn, p) rest c' l' h'.
Proof. intros Hb. unfold in_progress. simpl. by rewrite Hb. Qed.

Lemma rest_of_run_exit n fuel lt rn p rest c l h r :
  body lt rn p c l h = inr r ->
  rest_of_run (S n) fuel (lt, rn, p) rest c l h =
  after_pages p (dirs fuel rest (Some p)) r.
Proof. intros Hb. unfold in_progress. simpl. by rewrite Hb. Qed.

Lemma dirs_cons fuel d rest pv l h :
  dirs fuel (d :: rest) pv l h = rest_of_run fuel fuel d rest "" l h.
Proof. by destruct d as [[lt rn] p]. Qed.

(** An execution that stands at a loop head ends the way the rest of the
    run from that loop head ends. *)
Lemma head_of_loop_run fuel lts n d rest c l h :
  head_of_loop fuel lts n d rest c l h ->
  dirs fuel lts None initial_locals [] = rest_of_run n fuel d rest c l h.
Proof.
  induction 1 as [d rest -> | n lt rn p rest c l h c' l' h' _ IH Hb
                 | n lt rn p d rest c l h l' h' _ IH Hb Hdup Hid].
  - apply dirs_cons.
  - by rewrite IH, (rest_of_run_next_page _ _ _ _ _ _ _ _ _ _ _ _ Hb).
  - rewrite IH, (rest_of_run_exit _ _ _ _ _ _ _ _ _ _ Hb).
    cbn [after_pages]. rewrite Hdup, Hid. apply dirs_cons.
Qed.

(** Induction along a run: a property of the rest of a run that holds
    when the fuel is used up, is passed backwards over an iteration and
    over the step to the next directory, and holds when the function
    ends from the body, holds of every rest of a run. *)
Lemma rest_of_run_ind fuel
    (P : nat -> ListType -> list ListType -> string -> Locals -> list Event ->
         Exit * Locals * list Event -> Prop) :
  (forall d rest c l h, P 0%nat d rest c l h (OutOfFuel, l, h)) ->
  (forall n lt rn p rest c l h c' l' h' r,
      body lt rn p c l h = inl (c', l', h') ->
      P n (lt, rn, p) rest c' l' h' r ->
      P (S n) (lt, rn, p) rest c l h r) ->
  (forall n lt rn p rest c l h e0 l' h' e,
      body lt rn p c l h = inr (e0, l', h') ->
      ends_with p rest l' e0 e ->
      P (S n) (lt, rn, p) rest c l h (e, l', h')) ->
  (forall n lt rn p d rest c l h l' h' r,
      body lt rn p c l h = inr (Break, l', h') ->
      found_duplicate l' = false ->
      id_data l' = None ->
      P fuel d rest "" l' h' r ->
      P (S n) (lt, rn, p) (d :: rest) c l h r) ->
  forall rest n d c l h, P n d rest c l h (rest_of_run n fuel d rest c l h).
Proof.
  intros Hfuel Hpage Hend Hdir.
  induction rest as [|d1 rest IHrest]; intros n; induction n as [|n IHn];
    intros [[lt rn] p] c l h.
  1, 3: apply Hfuel.
  all: destruct (body lt rn p c l h) as [[[c1 l1] h1] | [[e1 l1] h1]] eqn:Hb;
    [ rewrite (rest_of_run_next_page _ _ _ _ _ _ _ _ _ _ _ _ Hb);
      eapply Hpage; [ exact Hb | apply IHn ]
    | rewrite (rest_of_run_exit _ _ _ _ _ _ _ _ _ _ Hb) ].
  all: destruct e1 as [r | exn | | ]; cbn [after_pages];
    [ eapply Hend; [ exact Hb | constructor ]
    | eapply Hend; [ exact Hb | constructor ]
    |
    | by apply loop_body_not_out_of_fuel in Hb ].
  all: destruct (found_duplicate l1) eqn:Hdup;
    [ eapply Hend; [ exact Hb | by constructor ] | ].
  all: destruct (id_data l1) as [data|] eqn:Hid;
    [ eapply Hend; [ exact Hb | by eapply ends_candidate ] | ].
  - simpl. eapply Hend; [ exact Hb | by apply ends_exhausted ].
  - rewrite dirs_cons. eapply Hdir; eauto.
Qed.

(** Conversely, every run ends at a loop head: out of fuel there, or by
    leaving the body of the loop from there. *)
Lemma rest_of_run_cases fuel lts rest n d c l h e l' h' :
  head_of_loop fuel lts n d rest c l h ->
  rest_of_run n fuel d rest c l h = (e, l', h') ->
  (e = OutOfFuel /\ exists d' rest' c', head_of_loop fuel lts 0%nat d' rest' c' l' h') \/
  (exists n' lt rn p rest' c' l0 h0 e0,
      head_of_loop fuel lts (S n') (lt, rn, p) rest' c' l0 h0 /\
      body lt rn p c' l0 h0 = inr (e0, l', h') /\
      ends_with p rest' l' e0 e).
Proof.
  revert e l' h'.
  pattern n, d, rest, c, l, h, (rest_of_run n fuel d rest c l h).
  revert rest n d c l h. apply rest_of_run_ind.
  - intros d rest c l h Hat e l' h' [= <- <- <-]. left. eauto.
  - intros n lt rn p rest c l h c' l' h' r Hb IH Hat e l1 h1 Hr.
    eapply IH; [ eapply at_next_page; eauto | done ].
  - intros n lt rn p rest c l h e0 l' h' e Hb Hend Hat e' l1 h1 [= <- <- <-].
    right. do 9 eexists. eauto.
  - intros n lt rn p d rest c l h l' h' r Hb Hdup Hid IH Hat e l1 h1 Hr.
    eapply IH; [ eapply at_next_list_type; eauto | done ].
Qed.

(** A run only ever adds to the history, and an iteration starts by
    issuing its request. *)
Lemma rest_of_run_extends fuel rest n d c l h :
  exists tail, (rest_of_run n fuel d rest c l h).2 = h ++ tail /\
    (n <> 0%nat -> exists tail', tail = Get (url_of d.1.1) (page_params payload c)
                                  (reply d.1.1 c h) :: tail').
Proof.
  pattern n, d, rest, c, l, h, (rest_of_run n fuel d rest c l h).
  revert rest n d c l h. apply rest_of_run_ind.
  - intros d rest c l h. exists []. split; [ by rewrite app_nil_r | done ].
  - intros n lt rn p rest c l h c' l' h' r Hb (tail & -> & _).
    destruct (loop_body_cases lt rn p c l h);
      inversion Hb; subst; unfold asked; simpl.
    all: eexists; split; [ by rewrite <- !app_assoc | eauto ].
  - intros n lt rn p rest c l h e0 l' h' e Hb _.
    destruct (loop_body_cases lt rn p c l h);
      inversion Hb; subst; unfold asked; simpl.
    all: eexists; split; [ by rewrite <- ?app_assoc | eauto ].
  - intros n lt rn p d rest c l h l' h' r Hb _ _ (tail & -> & _).
    destruct (loop_body_cases lt rn p c l h);
      inversion Hb; subst; unfold asked; simpl.
    all: eexists; split; [ by rewrite <- !app_assoc | eauto ].
Qed.

Lemma run_cases fuel d rest e l' h' :
  dirs fuel (d :: rest) None initial_locals [] = (e, l', h') ->
  (e = OutOfFuel /\
   exists d' rest' c', head_of_loop fuel (d :: rest) 0%nat d' rest' c' l' h') \/
  (exists n' lt rn p rest' c' l0 h0 e0,
      head_of_loop fuel (d :: rest) (S n') (lt, rn, p) rest' c' l0 h0 /\
      body lt rn p c' l0 h0 = inr (e0, l', h') /\
      ends_with p rest' l' e0 e).
Proof.
  rewrite dirs_cons. apply rest_of_run_cases. by constructor.
Qed.

Lemma run_exits fuel lts n lt rn p rest c l h r :
  head_of_loop fuel lts (S n) (lt, rn, p) rest c l h ->
  body lt rn p c l h = inr r ->
  dirs fuel lts None initial_locals [] = after_pages p (dirs fuel rest (Some p)) r.
Proof.
  intros Hat Hb.
  by rewrite (head_of_loop_run _ _ _ _ _ _ _ _ Hat),
             (rest_of_run_exit _ _ _ _ _ _ _ _ _ _ Hb).
Qed.

(** ** The scan of one page *)

Lemma note_display_name_count lt p c l :
  scanned_item_count (note_display_name name lt p c l) = scanned_item_count l.
Proof.
  unfold note_display_name.
  destruct (decide _); [|done].
  destruct (display_name_matches name c); [|done].
  by destruct (id_data l).
Qed.

Lemma scan_items_no_match lt p cs l :
  Forall (fun b => entry_name b <> name) cs ->
  (scan_items name lt p cs l).1 = None /\
  scanned_item_count (scan_items name lt p cs l).2 =
    (scanned_item_count l + length cs)%nat.
Proof.
  intros Hcs. revert l.
  induction Hcs as [|b cs Hb _ IH]; intros l; simpl.
  - split; [done | lia].
  - unfold name_matches. rewrite bool_decide_eq_false_2 by done.
    destruct (IH (note_display_name name lt p b
                    (mkLocals (id_data l) (found_duplicate l)
                              (S (scanned_item_count l))))) as [-> ->].
    rewrite note_display_name_count. simpl. split; [done | lia].
Qed.

Lemma scan_items_app lt p before cs l :
  Forall (fun b => entry_name b <> name) before ->
  scan_items name lt p (before ++ cs) l =
  scan_items name lt p cs (scan_items name lt p before l).2.
Proof.
  intros Hb. revert l.
  induction Hb as [|b before Hb _ IH]; intros l; simpl; [done|].
  unfold name_matches. rewrite bool_decide_eq_false_2 by done. apply IH.
Qed.

(** The first entry of a page whose [name] is the target is returned, and
    nothing after it is scanned. *)
Lemma scan_items_found lt p before c after l :
  Forall (fun b => entry_name b <> name) before ->
  entry_name c = name ->
  exists l', scan_items name lt p (before ++ c :: after) l =
               (Some (p, Some (entry_id c)), l') /\
    scanned_item_count l' = (scanned_item_count l + length before + 1)%nat /\
    id_data l' = id_data (scan_items name lt p before l).2 /\
    found_duplicate l' = found_duplicate (scan_items name lt p before l).2.
Proof.
  intros Hb Hc. rewrite scan_items_app by done. simpl.
  unfold name_matches. rewrite bool_decide_eq_true_2 by done.
  eexists. split; [done|]. simpl.
  destruct (scan_items_no_match lt p before l Hb) as [_ ->].
  split; [lia | done].
Qed.

Lemma scan_items_inv lt p cs l o l' :
  scan_items name lt p cs l = (o, l') ->
  match o with
  | None => Forall (fun b => entry_name b <> name) cs
  | Some r => exists before c after,
      cs = before ++ c :: after /\
      Forall (fun b => entry_name b <> name) before /\
      entry_name c = name /\ r = (p, Some (entry_id c))
  end.
Proof.
  revert l. induction cs as [|b cs IH]; intros l; simpl.
  - intros [= <- <-]. constructor.
  - unfold name_matches. destruct (bool_decide_reflect (entry_name b = name)) as [Hb|Hb].
    + intros [= <- <-]. exists [], b, cs. by repeat split.
    + intros Hs. specialize (IH _ Hs). destruct o as [r|].
      * destruct IH as (before & c & after & -> & Hbefore & Hc & ->).
        exists (b :: before), c, after. repeat split; try done.
        by constructor.
      * by constructor.
Qed.

(** ** The bookkeeping of display names *)

Lemma known_users lt rn p :
  known (lt, rn, p) -> lt = "users" -> rn = "members" /\ p = MEMBER_PREFIX.
Proof.
  unfold known, LIST_TYPES, LEGACY_LIST_TYPES.
  rewrite !elem_of_cons, !elem_of_nil. intros H ->.
  destruct H as [[H|[H|[]]] | [H|[H|[H|[]]]]]; inversion H; done.
Qed.

Lemma known_other_url lt rn p :
  known (lt, rn, p) -> lt <> "users" -> url_of lt <> url_of "users".
Proof.
  unfold known, LIST_TYPES, LEGACY_LIST_TYPES.
  rewrite !elem_of_cons, !elem_of_nil. intros H Hlt.
  destruct H as [[H|[H|[]]] | [H|[H|[H|[]]]]]; inversion H; subst;
    solve [ done | vm_compute; discriminate ].
Qed.

Lemma candidates_app h h' :
  candidates name (h ++ h') = candidates name h ++ candidates name h'.
Proof.
  unfold candidates, scanned_entries. by rewrite flat_map_app, filter_app.
Qed.

Lemma candidates_unscanned h ev :
  page_entries "users" "members" ev = [] ->
  candidates name (h ++ [ev]) = candidates name h.
Proof.
  intros Hev. rewrite candidates_app.
  unfold candidates at 2, scanned_entries. simpl. rewrite Hev. simpl.
  by rewrite app_nil_r.
Qed.

Lemma tracks_nil : tracks [] initial_locals.
Proof. by split. Qed.

Lemma scan_items_tracks cs : forall l m l',
  tracks m l ->
  scan_items name "users" MEMBER_PREFIX cs l = (None, l') ->
  tracks (m ++ filter (fun c => display_name_matches name c) cs) l'.
Proof.
  induction cs as [|b cs IH]; intros l m l' Htr; simpl.
  - intros [= <-]. by rewrite app_nil_r.
  - destruct (name_matches name b); [ done | ].
    intros Hscan.
    rewrite filter_cons.
    unfold note_display_name in Hscan. simpl in Hscan.
    destruct (decide (display_name_matches name b)) as [Hdn|Hdn].
    + rewrite (Is_true_true_1 _ Hdn) in Hscan.
      replace (m ++ b :: filter (fun c => display_name_matches name c) cs)
        with ((m ++ [b]) ++ filter (fun c => display_name_matches name c) cs)
        by (by rewrite <- app_assoc).
      eapply IH; [ | exact Hscan ].
      destruct Htr as [Hid Hdup].
      destruct m as [|c1 m]; simpl in Hid; rewrite Hid; split; simpl; try done.
      rewrite length_app. simpl.
      rewrite bool_decide_eq_true_2; [ done | lia ].
    + apply Is_true_false_1 in Hdn. rewrite Hdn in Hscan.
      eapply IH; [ | exact Hscan ]. exact Htr.
Qed.

Lemma scan_items_other lt p cs : forall l,
  lt <> "users" ->
  id_data (scan_items name lt p cs l).2 = id_data l /\
  found_duplicate (scan_items name lt p cs l).2 = found_duplicate l.
Proof.
  induction cs as [|b cs IH]; intros l Hlt; simpl; [ done | ].
  destruct (name_matches name b); [ done | ].
  unfold note_display_name. rewrite decide_False by done.
  by destruct (IH (mkLocals (id_data l) (found_duplicate l)
                     (S (scanned_item_count l))) Hlt) as [-> ->].
Qed.

(** Scanning a delivered page to its end keeps the books. *)
Lemma bookkeeping_scanned lt rn p c l h cs l' :
  known (lt, rn, p) ->
  bookkeeping name l h ->
  resp_ok (reply lt c h) = true ->
  resp_lists (reply lt c h) !! rn = Some cs ->
  scan_items name lt p cs l = (None, l') ->
  bookkeeping name l' (sent lt c h) /\ (lt <> "users" -> id_data l' = id_data l).
Proof.
  intros Hknown Hbk Hok Hcs Hscan. unfold bookkeeping, asked.
  destruct (decide (lt = "users")) as [->|Hlt].
  - destruct (known_users _ _ _ Hknown eq_refl) as [-> ->].
    split; [ | done ].
    rewrite candidates_app. unfold candidates at 2, scanned_entries. simpl.
    rewrite Hok, Hcs. simpl. rewrite app_nil_r.
    by eapply scan_items_tracks.
  - destruct (scan_items_other lt p cs l Hlt) as [Hid Hdup].
    rewrite Hscan in Hid, Hdup. simpl in Hid, Hdup.
    split; [ | done ].
    rewrite candidates_unscanned.
    + destruct Hbk as [H1 H2]. split; congruence.
    + cbn [page_entries]. rewrite decide_False; [ done | ].
      by eapply known_other_url.
Qed.

(** An answer that is not [ok], or that lacks the list, adds no entries. *)
Lemma candidates_not_delivered lt rn p c h :
  known (lt, rn, p) ->
  resp_ok (reply lt c h) = false \/ resp_lists (reply lt c h) !! rn = None ->
  candidates name (sent lt c h) = candidates name h.
Proof.
  intros Hknown Hno. unfold asked. apply candidates_unscanned.
  cbn [page_entries].
  destruct (decide _) as [Heq|]; [ | done ].
  destruct Hno as [-> | Hno]; [ done | ].
  destruct (decide (lt = "users")) as [->|Hlt].
  - destruct (known_users _ _ _ Hknown eq_refl) as [-> ->].
    rewrite Hno. by destruct (resp_ok _).
  - by destruct (known_other_url _ _ _ Hknown Hlt).
Qed.

Lemma candidates_logged h evs :
  Forall (fun ev => is_get ev = false) evs ->
  candidates name (h ++ evs) = candidates name h.
Proof.
  intros Hevs. rewrite candidates_app.
  replace (candidates name evs) with (@nil Entry); [ by rewrite app_nil_r | ].
  induction Hevs as [|ev evs Hev _ IH]; [ done | ].
  change (ev :: evs) with ([ev] ++ evs). rewrite candidates_app, <- IH.
  by destruct ev.
Qed.

(** At every loop head the books are kept, a directory other than the
    members directory has recorded nothing, and the directory in progress
    and those to come are directories of the table. *)
Lemma head_of_loop_bookkeeping fuel lts n d rest c l h :
  (forall d', d' ∈ lts -> known d') ->
  head_of_loop fuel lts n d rest c l h ->
  bookkeeping name l h /\ (d.1.1 <> "users" -> id_data l = None) /\
  (forall d', d' ∈ d :: rest -> known d').
Proof.
  intros Hlts.
  induction 1 as [d rest -> | n lt rn p rest c l h c' l' h' _ IH Hb
                 | n lt rn p d rest c l h l' h' _ IH Hb Hdup Hid].
  - split; [ apply tracks_nil | by split ].
  - destruct IH as (Hbk & Hnone & Hin).
    assert (Hknown : known (lt, rn, p)) by (apply Hin; left).
    split; [ | split; [ | done ] ].
    + destruct (loop_body_cases lt rn p c l h); inversion Hb; subst.
      * unfold bookkeeping.
        rewrite candidates_logged by (by repeat constructor).
        rewrite (candidates_not_delivered lt rn p) by eauto. exact Hbk.
      * by eapply bookkeeping_scanned.
    + simpl. intros Hlt.
      destruct (loop_body_cases lt rn p c l h); inversion Hb; subst; [ by apply Hnone | ].
      edestruct bookkeeping_scanned as [_ Hsame]; [ done.. | ].
      rewrite Hsame by done. by apply Hnone.
  - destruct IH as (Hbk & Hnone & Hin).
    assert (Hknown : known (lt, rn, p)) by (apply Hin; left).
    split; [ | split; [ done | ] ].
    + destruct (loop_body_cases lt rn p c l h); inversion Hb; subst.
      by eapply bookkeeping_scanned.
    + intros d' Hd'. apply Hin. by right.
Qed.

(** ** What an iteration adds to the history *)

Lemma loop_body_history lt rn p c l h :
  exists tail,
    Forall (fun ev => is_get ev = false) tail /\
    match body lt rn p c l h with
    | inl (_, _, h') => h' = sent lt c h ++ tail
    | inr (_, _, h') => h' = sent lt c h ++ tail
    end.
Proof.
  destruct (loop_body_cases lt rn p c l h).
  1: exists (rate_limited_logs lt ++ [Sleep d]).
  2: exists [Log Error ("rule.slack." +:+ lt +:+ "_list_failed")].
  5: exists [Log Error ("rule.slack." +:+ lt +:+ "_list_timed_out")].
  8: exists (rate_limited_logs lt).
  3-4, 6-7: exists []; rewrite ?app_nil_r.
  all: split; [ by repeat constructor | done ].
Qed.






(** Every request of a run carries the parameters of line 238. *)
Lemma rest_of_run_page_size fuel rest n d c l h :
  Forall asks_for_100 h ->
  Forall asks_for_100 (rest_of_run n fuel d rest c l h).2.
Proof.
  pattern n, d, rest, c, l, h, (rest_of_run n fuel d rest c l h).
  revert rest n d c l h.
  assert (Hstep : forall lt c h tail,
             Forall (fun ev => is_get ev = false) tail ->
             Forall asks_for_100 h ->
             Forall asks_for_100 (sent lt c h ++ tail)).
  { intros lt c h tail Htail Hh. unfold asked.
    rewrite !Forall_app. split; [ split; [ done | ] | ].
    - constructor; [ | done ]. simpl. unfold page_params.
      by rewrite lookup_insert_eq.
    - eapply Forall_impl; [ exact Htail | ]. by intros []. }
  apply rest_of_run_ind.
  - done.
  - intros n lt rn p rest c l h c' l' h' r Hb IH Hh. apply IH.
    destruct (loop_body_history lt rn p c l h) as (tail & Htail & Hh').
    rewrite Hb in Hh'. subst h'. by apply Hstep.
  - intros n lt rn p rest c l h e0 l' h' e Hb _ Hh.
    destruct (loop_body_history lt rn p c l h) as (tail & Htail & Hh').
    rewrite Hb in Hh'. subst h'. by apply Hstep.
  - intros n lt rn p d rest c l h l' h' r Hb _ _ IH Hh. apply IH.
    destruct (loop_body_history lt rn p c l h) as (tail & Htail & Hh').
    rewrite Hb in Hh'. subst h'. by apply Hstep.
Qed.

(** ** More fuel *)




(** ** A loop that is rate limited for ever *)



(** ** Stripping *)

Lemma lstrip_app chars pre s :
  all_in chars pre = true -> lstrip chars (pre +:+ s) = lstrip chars s.
Proof.
  induction pre as [|a pre IH]; simpl; [ done | ].
  intros [Ha Hpre]%andb_true_iff. rewrite Ha. by apply IH.
Qed.


End Facts.

(** ** The claims about [get_channel_id_with_timeout] *)

Section Claims.

Context (env : Env) (integration : Integration) (name : string) (timeout : Z).

Local Abbreviation payload := (channels_payload_of env integration).
Local Abbreviation ttq := (time_time env [] + timeout).
Local Abbreviation reply := (answer env payload).
Local Abbreviation sent := (asked env payload).
Local Abbreviation body := (loop_body env name payload ttq).

Lemma list_types_known d : d ∈ list_types_of env -> known d.
Proof. unfold list_types_of, known. destruct (slack_legacy_app env); auto. Qed.

Lemma at_head_bookkeeping fuel n d rest c l h :
  stands_at fuel env integration name timeout n d rest c l h ->
  bookkeeping name l h /\ (d.1.1 <> "users" -> id_data l = None) /\
  (forall d', d' ∈ d :: rest -> known d').
Proof. apply head_of_loop_bookkeeping, list_types_known. Qed.

(** The exit at line 270. *)
Lemma timed_out_page fuel n lt rn p rest c l h cs :
  stands_at fuel env integration name timeout (S n) (lt, rn, p) rest c l h ->
  resp_ok (reply lt c h) = true ->
  resp_lists (reply lt c h) !! rn = Some cs ->
  Forall (fun b => entry_name b <> name) cs ->
  ttq < time_time env (sent lt c h) ->
  get_channel_id_with_timeout fuel env integration name timeout =
    (Return (p, None), (scan_items name lt p cs l).2,
     sent lt c h ++ [Log Error ("rule.slack." +:+ lt +:+ "_list_timed_out")]).
Proof.
  intros Hat Hok Hcs Hnames Hlate.
  assert (Hb : body lt rn p c l h =
            inr (Return (p, None), (scan_items name lt p cs l).2,
                 sent lt c h ++
                   [Log Error ("rule.slack." +:+ lt +:+ "_list_timed_out")])).
  { unfold loop_body. rewrite Hok. simpl. rewrite Hcs.
    destruct (scan_items_no_match name lt p cs l Hnames) as [Hnone _].
    destruct (scan_items name lt p cs l) as [o l'].
    simpl in Hnone. subst o.
    apply Z.ltb_lt in Hlate. by rewrite Hlate. }
  unfold get_channel_id_with_timeout.
  by rewrite (run_exits _ _ _ _ _ _ _ _ _ _ _ _ _ _ _ Hat Hb).
Qed.

(** The exit at line 273, taken on the last page of a directory. *)
Lemma last_page_body lt rn p c l h cs :
  resp_ok (reply lt c h) = true ->
  resp_lists (reply lt c h) !! rn = Some cs ->
  Forall (fun b => entry_name b <> name) cs ->
  time_time env (sent lt c h) <= ttq ->
  truthy_cursor (cursor_of (reply lt c h)) = None ->
  body lt rn p c l h = inr (Break, (scan_items name lt p cs l).2, sent lt c h).
Proof.
  intros Hok Hcs Hnames Hintime Hlast.
  unfold loop_body. rewrite Hok. simpl. rewrite Hcs.
  destruct (scan_items_no_match name lt p cs l Hnames) as [Hnone _].
  destruct (scan_items name lt p cs l) as [o l'].
  simpl in Hnone. subst o.
  apply Z.ltb_ge in Hintime. by rewrite Hintime, Hlast.
Qed.

(** The locals after a page of the members directory has been scanned to
    its end. *)
Lemma members_page_tracked fuel n rest c l h cs :
  stands_at fuel env integration name timeout n ("users", "members", MEMBER_PREFIX) rest c l h ->
  resp_ok (reply "users" c h) = true ->
  resp_lists (reply "users" c h) !! "members" = Some cs ->
  Forall (fun b => entry_name b <> name) cs ->
  tracks (candidates name (sent "users" c h))
         (scan_items name "users" MEMBER_PREFIX cs l).2.
Proof.
  intros Hat Hok Hcs Hnames.
  destruct (at_head_bookkeeping _ _ _ _ _ _ _ Hat) as (Hbk & _ & Hin).
  destruct (scan_items_no_match name "users" MEMBER_PREFIX cs l Hnames) as [Hnone _].
  destruct (scan_items name "users" MEMBER_PREFIX cs l) as [o l'] eqn:Hscan.
  simpl in Hnone. subst o. simpl.
  eapply (bookkeeping_scanned env name payload "users" "members" MEMBER_PREFIX);
    eauto.
  apply Hin. left.
Qed.

(** C4.  When the API answers a list request with [ok: false] and without a
    retry-after header, the function returns [(prefix, None)] for the
    directory in progress at once: the history ends with that one request
    and the error log, so the request is not retried, no further page is
    fetched and no later directory is tried. *)
Theorem api_failure_aborts_resolution fuel n lt rn p rest c l h :
  stands_at fuel env integration name timeout (S n) (lt, rn, p) rest c l h ->
  resp_ok (reply lt c h) = false ->
  resp_retry_after (reply lt c h) = None ->
  get_channel_id_with_timeout fuel env integration name timeout =
    (Return (p, None), l,
     h ++ [Get (url_of lt) (page_params payload c) (reply lt c h);
           Log Error ("rule.slack." +:+ lt +:+ "_list_failed")]).
Proof.
  intros Hat Hok Hretry.
  unfold get_channel_id_with_timeout.
  erewrite run_exits; [ | exact Hat | ].
  2: { unfold loop_body. rewrite Hok. simpl. rewrite Hretry. reflexivity. }
  simpl. unfold asked. by rewrite <- app_assoc.
Qed.

(** C5.  The deadline is read once a page has been scanned, and nowhere
    else.  First part: when the clock, read after the page has been
    scanned without a match on [name], is past [start + timeout], the
    function returns [(prefix, None)] for the directory in progress; the
    history ends with that page and the log line, whatever the next cursor
    and whatever directories are left.  Second part: a rate limited answer
    (its header the non-negative number [d], which line 245 accepts) leads
    back to the head of the loop, after the sleep, whatever the clock
    reads. *)
Theorem deadline_is_checked_after_each_page fuel n lt rn p rest c l h :
  stands_at fuel env integration name timeout (S n) (lt, rn, p) rest c l h ->
  (forall cs,
      resp_ok (reply lt c h) = true ->
      resp_lists (reply lt c h) !! rn = Some cs ->
      Forall (fun b => entry_name b <> name) cs ->
      ttq < time_time env (sent lt c h) ->
      get_channel_id_with_timeout fuel env integration name timeout =
        (Return (p, None), (scan_items name lt p cs l).2,
         sent lt c h ++ [Log Error ("rule.slack." +:+ lt +:+ "_list_timed_out")])) /\
  (forall d,
      resp_ok (reply lt c h) = false ->
      resp_retry_after (reply lt c h) = Some (Seconds d) ->
      0 <= d ->
      stands_at fuel env integration name timeout n (lt, rn, p) rest c l
        (sent lt c h ++ rate_limited_logs lt ++ [Sleep d])).
Proof.
  intros Hat. split.
  - intros cs Hok Hcs Hnames Hlate. eapply timed_out_page; eassumption.
  - intros d Hok Hretry Hpos.
    eapply at_next_page; [ exact Hat | ].
    unfold loop_body. rewrite Hok. simpl.
    by rewrite Hretry, (sleep_length_seconds _ Hpos).
Qed.


(** C2.  When the page that is delivered holds an entry whose [name] is
    the target, the function returns the prefix of the directory in
    progress with the [id] of the first such entry.  The history ends with
    the request for that page (no later page, no later directory), and the
    count of scanned entries stops at that entry.  The locals are
    arbitrary: display names already recorded, duplicates included, make
    no difference. *)
Theorem exact_name_match_returns_at_once fuel n lt rn p rest c l h before c0 after :
  stands_at fuel env integration name timeout (S n) (lt, rn, p) rest c l h ->
  resp_ok (reply lt c h) = true ->
  resp_lists (reply lt c h) !! rn = Some (before ++ c0 :: after) ->
  Forall (fun b => entry_name b <> name) before ->
  entry_name c0 = name ->
  exists l',
    get_channel_id_with_timeout fuel env integration name timeout =
      (Return (p, Some (entry_id c0)), l', sent lt c h) /\
    scanned_item_count l' = (scanned_item_count l + length before + 1)%nat.
Proof.
  intros Hat Hok Hcs Hbefore Hc0.
  destruct (scan_items_found name lt p before c0 after l Hbefore Hc0)
    as (l' & Hscan & Hcount & _).
  exists l'. split; [ | exact Hcount ].
  unfold get_channel_id_with_timeout.
  erewrite run_exits; [ | exact Hat | ].
  2: { unfold loop_body. rewrite Hok. simpl. rewrite Hcs, Hscan. reflexivity. }
  reflexivity.
Qed.

(** C10.  On the last page of the members directory (no next cursor), with
    exactly one member entry of that display name delivered over all its
    pages, a clock past the deadline still makes the function return
    [("@", None)]: the check at line 268 comes before the [break] at line
    273 and so before line 277, where the recorded candidate, which the
    locals do hold, would have been returned. *)
Theorem deadline_beats_recorded_candidate fuel n rest c l h cs c0 :
  stands_at fuel env integration name timeout (S n)
    ("users", "members", MEMBER_PREFIX) rest c l h ->
  resp_ok (reply "users" c h) = true ->
  resp_lists (reply "users" c h) !! "members" = Some cs ->
  Forall (fun b => entry_name b <> name) cs ->
  truthy_cursor (cursor_of (reply "users" c h)) = None ->
  candidates name (sent "users" c h) = [c0] ->
  ttq < time_time env (sent "users" c h) ->
  exists l',
    get_channel_id_with_timeout fuel env integration name timeout =
      (Return (MEMBER_PREFIX, None), l',
       sent "users" c h ++ [Log Error "rule.slack.users_list_timed_out"]) /\
    id_data l' = Some (MEMBER_PREFIX, Some (entry_id c0)) /\
    found_duplicate l' = false.
Proof.
  intros Hat Hok Hcs Hnames _ Hone Hlate.
  exists (scan_items name "users" MEMBER_PREFIX cs l).2.
  split; [ eapply timed_out_page; eassumption | ].
  destruct (members_page_tracked _ _ _ _ _ _ _ Hat Hok Hcs Hnames) as [Hid Hdup].
  rewrite Hone in Hid, Hdup. by split.
Qed.

(** C3.  On the last page of the members directory, when the member
    entries delivered over all its pages hold two or more with the target
    as display name, and the page holds no entry whose [name] is the
    target, the function returns [("@", None)].  The locals still hold the
    first candidate: it was not overwritten, and it is not returned.  The
    history ends with that page, or with the log line of the timeout when
    the deadline has passed as well. *)
Theorem duplicate_display_names_give_no_id fuel n rest c l h cs c1 :
  stands_at fuel env integration name timeout (S n)
    ("users", "members", MEMBER_PREFIX) rest c l h ->
  resp_ok (reply "users" c h) = true ->
  resp_lists (reply "users" c h) !! "members" = Some cs ->
  Forall (fun b => entry_name b <> name) cs ->
  truthy_cursor (cursor_of (reply "users" c h)) = None ->
  head (candidates name (sent "users" c h)) = Some c1 ->
  (2 <= length (candidates name (sent "users" c h)))%nat ->
  exists l',
    get_channel_id_with_timeout fuel env integration name timeout =
      (Return (MEMBER_PREFIX, None), l',
       sent "users" c h ++
         (if ttq <? time_time env (sent "users" c h)
          then [Log Error "rule.slack.users_list_timed_out"] else [])) /\
    id_data l' = Some (MEMBER_PREFIX, Some (entry_id c1)) /\
    found_duplicate l' = true.
Proof.
  intros Hat Hok Hcs Hnames Hlast Hfirst Htwo.
  exists (scan_items name "users" MEMBER_PREFIX cs l).2.
  destruct (members_page_tracked _ _ _ _ _ _ _ Hat Hok Hcs Hnames) as [Hid Hdup].
  rewrite Hfirst in Hid. rewrite bool_decide_eq_true_2 in Hdup by done.
  split; [ | by split ].
  destruct (ttq <? time_time env (sent "users" c h)) eqn:Hclock.
  - apply Z.ltb_lt in Hclock. eapply timed_out_page; eassumption.
  - apply Z.ltb_ge in Hclock.
    pose proof (last_page_body "users" "members" MEMBER_PREFIX c l h cs
                  Hok Hcs Hnames Hclock Hlast) as Hb.
    unfold get_channel_id_with_timeout.
    rewrite (run_exits _ _ _ _ _ _ _ _ _ _ _ _ _ _ _ Hat Hb).
    cbn [after_pages]. rewrite Hdup. by rewrite app_nil_r.
Qed.

(** C1.  A returned pair with an id has one of two origins.  Either the
    page delivered last holds an entry whose [name] is the target, the id
    is that of the first such entry of the page and the prefix that of the
    directory in progress: the history ends with the request for that
    page.  Or the last page of the members directory (no next cursor) has
    just been scanned to its end within the deadline, and exactly one of
    the member entries delivered over all pages has the target as display
    name: the id is its id and the prefix is ["@"]. *)
Theorem id_only_for_unique_match fuel p i l h :
  get_channel_id_with_timeout fuel env integration name timeout = (Return (p, Some i), l, h) ->
  found_by_name fuel env integration name timeout p i h \/
  found_by_display_name fuel env integration name timeout p i h.
Proof.
  unfold get_channel_id_with_timeout. intros Hrun.
  assert (Hlts : exists d rest, list_types_of env = d :: rest)
    by (unfold list_types_of; destruct (slack_legacy_app env); eauto).
  destruct Hlts as (d & rest & Hlts).
  pose proof Hrun as Hrun'. rewrite Hlts in Hrun'.
  apply run_cases in Hrun'. rewrite <- Hlts in Hrun'.
  destruct Hrun' as [[? _] | (n & lt & rn & p0 & rest' & c & l0 & h0 & e0 & Hat & Hb & Hend)];
    [ done | ].
  destruct (at_head_bookkeeping _ _ _ _ _ _ _ Hat) as (Hbk & Hnone & Hin).
  assert (Hknown : known (lt, rn, p0)) by (apply Hin; left).
  inversion Hend as [r | | | data Hdup Hid | ]; subst.
  - destruct (loop_body_cases env name payload ttq lt rn p0 c l0 h0);
      inversion Hb; subst.
    pose proof (scan_items_inv _ _ _ _ _ _ _ H1) as Hinv. simpl in Hinv.
    destruct Hinv as (before & c0 & after & -> & Hbefore & Hc0 & [= -> ->]).
    left. unfold found_by_name. do 10 eexists. repeat split; eauto.
  - destruct (loop_body_cases env name payload ttq lt rn p0 c l0 h0);
      inversion Hb; subst.
    edestruct (bookkeeping_scanned env name payload lt rn p0) as [Htr Hsame];
      [ exact Hknown | exact Hbk | done.. | ].
    destruct (decide (lt = "users")) as [->|Hlt].
    + destruct (known_users _ _ _ Hknown eq_refl) as [-> ->].
      destruct Htr as [Htr1 Htr2]. rewrite Hid in Htr1. rewrite Hdup in Htr2.
      destruct (candidates name (sent "users" c h0)) as [|c0 m] eqn:Hm;
        [ done | ].
      simpl in Htr1. injection Htr1 as -> ->.
      destruct m as [|c2 m].
      * right. unfold found_by_display_name. do 6 eexists. repeat split; eauto.
      * rewrite bool_decide_eq_true_2 in Htr2 by (simpl; lia). done.
    + rewrite Hsame in Hid by done. rewrite Hnone in Hid by done. done.
Qed.

Lemma list_types_cons : exists d rest, list_types_of env = d :: rest.
Proof. unfold list_types_of. destruct (slack_legacy_app env); eauto. Qed.


(** C7, as the code has it.  Every list request names the page size 100,
    in the current mode and in the legacy mode alike: the parameters are
    built at one place (line 238) for both. *)
Theorem every_request_asks_for_100 fuel :
  Forall asks_for_100 (get_channel_id_with_timeout fuel env integration name timeout).2.
Proof.
  unfold get_channel_id_with_timeout.
  destruct list_types_cons as (d & rest & ->).
  rewrite dirs_cons. by apply rest_of_run_page_size.
Qed.


End Claims.

(** ** The form *)



(** ** The theorems at work on the scripted worlds *)

Lemma api_failure_aborts_resolution_witness :
  stands_at 1 failing_world the_integration "general" 30 1
    ("conversations", "channels", "#") [("users", "members", "@")] ""
    initial_locals [] /\
  get_channel_id_with_timeout 1 failing_world the_integration "general" 30 =
    (Return ("#", None), initial_locals,
     [Get (url_of "conversations")
          (page_params (channels_payload_of failing_world the_integration) "")
          failure;
      Log Error "rule.slack.conversations_list_failed"]).
Proof.
  assert (Hat : stands_at 1 failing_world the_integration "general" 30 1
    ("conversations", "channels", "#") [("users", "members", "@")] ""
    initial_locals []) by (apply at_start; reflexivity).
  split; [ exact Hat | ].
  exact (api_failure_aborts_resolution failing_world the_integration "general" 30
           1 0 _ _ _ _ _ _ _ Hat eq_refl eq_refl).
Defined.

Lemma deadline_is_checked_after_each_page_witness :
  get_channel_id_with_timeout 1 late_world the_integration "general" 30 =
    (Return ("#", None), mkLocals None false 1,
     asked late_world (channels_payload_of late_world the_integration)
       "conversations" "" [] ++
     [Log Error "rule.slack.conversations_list_timed_out"]) /\
  stands_at 2 rate_limited_world the_integration "general" 30 1
    ("conversations", "channels", "#") [("users", "members", "@")] ""
    initial_locals
    (asked rate_limited_world (channels_payload_of rate_limited_world the_integration)
       "conversations" "" [] ++ rate_limited_logs "conversations" ++ [Sleep 2]).
Proof.
  split.
  - refine (proj1 (deadline_is_checked_after_each_page late_world the_integration
                     "general" 30 1 0 "conversations" "channels" "#"
                     [("users", "members", "@")] "" initial_locals [] _)
                  [channel "random" "C2"] _ _ _ _).
    + apply at_start; reflexivity.
    + reflexivity.
    + reflexivity.
    + repeat constructor. discriminate.
    + reflexivity.
  - refine (proj2 (deadline_is_checked_after_each_page rate_limited_world
                     the_integration "general" 30 2 1 "conversations" "channels"
                     "#" [("users", "members", "@")] "" initial_locals [] _)
                  2 _ _ _).
    + apply at_start; reflexivity.
    + reflexivity.
    + reflexivity.
    + discriminate.
Defined.


Lemma exact_name_match_returns_at_once_witness :
  let w := paged_members_world in
  let payload := channels_payload_of w the_integration in
  let h2 := asked w payload "users" "" (asked w payload "conversations" "" []) in
  stands_at 2 w the_integration "jdoe" 30 1 ("users", "members", "@") [] "p2"
    (mkLocals (Some ("@", Some "U1")) true 2) h2 /\
  exists l',
    get_channel_id_with_timeout 2 w the_integration "jdoe" 30 =
      (Return ("@", Some "U3"), l', asked w payload "users" "p2" h2) /\
    scanned_item_count l' = 4%nat.
Proof.
  intros w payload h2.
  assert (Hat : stands_at 2 w the_integration "jdoe" 30 1
                  ("users", "members", "@") [] "p2"
                  (mkLocals (Some ("@", Some "U1")) true 2) h2).
  { eapply (at_next_page _ _ _ _ _ _ 1 "users" "members" "@" [] "" initial_locals
              (asked w payload "conversations" "" [])).
    - eapply (at_next_list_type _ _ _ _ _ _ 1 "conversations" "channels" "#"
                ("users", "members", "@") [] "" initial_locals []).
      + apply at_start; reflexivity.
      + reflexivity.
      + reflexivity.
      + reflexivity.
    - reflexivity. }
  split; [ exact Hat | ].
  refine (exact_name_match_returns_at_once w the_integration "jdoe" 30 2 0
            "users" "members" "@" [] "p2" _ h2
            [member "x" "U9" "zz"] (member "jdoe" "U3" "other")
            [member "y" "U4" "jdoe"] Hat _ _ _ _).
  - reflexivity.
  - reflexivity.
  - repeat constructor. discriminate.
  - reflexivity.
Defined.

Lemma deadline_beats_recorded_candidate_witness :
  let w := late_member_world in
  let payload := channels_payload_of w the_integration in
  let h1 := asked w payload "conversations" "" [] in
  stands_at 1 w the_integration "jdoe" 30 1 ("users", "members", "@") [] ""
    initial_locals h1 /\
  exists l',
    get_channel_id_with_timeout 1 w the_integration "jdoe" 30 =
      (Return ("@", None), l',
       asked w payload "users" "" h1 ++ [Log Error "rule.slack.users_list_timed_out"]) /\
    id_data l' = Some ("@", Some "U1") /\
    found_duplicate l' = false.
Proof.
  intros w payload h1.
  assert (Hat : stands_at 1 w the_integration "jdoe" 30 1
                  ("users", "members", "@") [] "" initial_locals h1).
  { eapply (at_next_list_type _ _ _ _ _ _ 0 "conversations" "channels" "#"
              ("users", "members", "@") [] "" initial_locals []).
    - apply at_start; reflexivity.
    - reflexivity.
    - reflexivity.
    - reflexivity. }
  split; [ exact Hat | ].
  refine (deadline_beats_recorded_candidate w the_integration "jdoe" 30 1 0 []
            "" initial_locals h1
            [member "a" "U1" "jdoe"; member "b" "U2" "other"]
            (member "a" "U1" "jdoe") Hat _ _ _ _ _ _).
  - reflexivity.
  - reflexivity.
  - repeat constructor; discriminate.
  - reflexivity.
  - reflexivity.
  - reflexivity.
Defined.

Lemma duplicate_display_names_give_no_id_witness :
  let w := duplicate_members_world in
  let payload := channels_payload_of w the_integration in
  let h1 := asked w payload "conversations" "" [] in
  stands_at 1 w the_integration "jdoe" 30 1 ("users", "members", "@") [] ""
    initial_locals h1 /\
  exists l',
    get_channel_id_with_timeout 1 w the_integration "jdoe" 30 =
      (Return ("@", None), l', asked w payload "users" "" h1 ++ []) /\
    id_data l' = Some ("@", Some "U1") /\
    found_duplicate l' = true.
Proof.
  intros w payload h1.
  assert (Hat : stands_at 1 w the_integration "jdoe" 30 1
                  ("users", "members", "@") [] "" initial_locals h1).
  { eapply (at_next_list_type _ _ _ _ _ _ 0 "conversations" "channels" "#"
              ("users", "members", "@") [] "" initial_locals []).
    - apply at_start; reflexivity.
    - reflexivity.
    - reflexivity.
    - reflexivity. }
  split; [ exact Hat | ].
  refine (duplicate_display_names_give_no_id w the_integration "jdoe" 30 1 0 []
            "" initial_locals h1
            [member "a" "U1" "jdoe"; member "b" "U2" "jdoe"]
            (member "a" "U1" "jdoe") Hat _ _ _ _ _ _).
  - reflexivity.
  - reflexivity.
  - repeat constructor; discriminate.
  - reflexivity.
  - reflexivity.
  - vm_compute. lia.
Defined.

Lemma id_only_for_unique_match_witness :
  let r := get_channel_id_with_timeout 1 legacy_world the_integration "general" 30 in
  r.1.1 = Return ("#", Some "C1") /\
  (found_by_name 1 legacy_world the_integration "general" 30 "#" "C1" r.2 \/
   found_by_display_name 1 legacy_world the_integration "general" 30 "#" "C1" r.2).
Proof.
  intros r. split; [ reflexivity | ].
  apply (id_only_for_unique_match legacy_world the_integration "general" 30 1
           "#" "C1" r.1.2 r.2).
  reflexivity.
Defined.



(** C7, as the claim has it, fails in the legacy mode: the one request of
    this legacy run names the page size. *)
Lemma legacy_request_names_page_size :
  slack_legacy_app legacy_world = true /\
  ~ Forall leaves_page_size_out
      (get_channel_id_with_timeout 1 legacy_world the_integration "general" 30).2.
Proof.
  split; [ reflexivity | ].
  intros H. apply Forall_inv in H. vm_compute in H. discriminate H.
Qed.

(** * Further properties of the resolver *)

Section MoreFacts.

Context (env : Env) (name : string) (payload : gmap string Value) (ttq : Z).

Local Abbreviation reply := (answer env payload).
Local Abbreviation sent := (asked env payload).
Local Abbreviation body := (loop_body env name payload ttq).
Local Abbreviation dirs := (for_list_types env name payload ttq).
Local Abbreviation rest_of_run := (in_progress env name payload ttq).
Local Abbreviation head_of_loop := (at_loop_head env name payload ttq).

(** The directory in progress and those to come are the end of the table. *)
Lemma head_of_loop_suffix fuel lts n d rest c l h :
  head_of_loop fuel lts n d rest c l h -> (d :: rest) `suffix_of` lts.
Proof.
  induction 1 as [d rest -> | n lt rn p rest c l h c' l' h' _ IH Hb
                 | n lt rn p d rest c l h l' h' _ IH Hb Hdup Hid].
  - done.
  - exact IH.
  - eapply suffix_cons_l. exact IH.
Qed.

Lemma head_of_loop_fuel_left fuel lts n d rest c l h :
  head_of_loop fuel lts n d rest c l h -> (n <= fuel)%nat.
Proof. induction 1; lia. Qed.

(** A property of events that holds of every request of line 238 and of
    everything that is not a request holds of the whole history of a run. *)
Lemma rest_of_run_requests (P : Event -> Prop) fuel rest n d c l h :
  (forall lt cursor resp, P (Get (url_of lt) (page_params payload cursor) resp)) ->
  (forall ev, is_get ev = false -> P ev) ->
  Forall P h ->
  Forall P (rest_of_run n fuel d rest c l h).2.
Proof.
  intros Hget Hother.
  assert (Hstep : forall lt c h tail,
             Forall (fun ev => is_get ev = false) tail ->
             Forall P h -> Forall P (sent lt c h ++ tail)).
  { intros lt0 c0 h0 tail Htail Hh. unfold asked.
    rewrite !Forall_app. split; [ split; [ done | ] | ].
    - constructor; [ apply Hget | done ].
    - eapply Forall_impl; [ exact Htail | exact Hother ]. }
  pattern n, d, rest, c, l, h, (rest_of_run n fuel d rest c l h).
  revert rest n d c l h. apply rest_of_run_ind.
  - done.
  - intros n lt rn p rest c l h c' l' h' r Hb IH Hh. apply IH.
    destruct (loop_body_history env name payload ttq lt rn p c l h)
      as (tail & Htail & Hh').
    rewrite Hb in Hh'. subst h'. by apply Hstep.
  - intros n lt rn p rest c l h e0 l' h' e Hb _ Hh.
    destruct (loop_body_history env name payload ttq lt rn p c l h)
      as (tail & Htail & Hh').
    rewrite Hb in Hh'. subst h'. by apply Hstep.
  - intros n lt rn p d rest c l h l' h' r Hb _ _ IH Hh. apply IH.
    destruct (loop_body_history env name payload ttq lt rn p c l h)
      as (tail & Htail & Hh').
    rewrite Hb in Hh'. subst h'. by apply Hstep.
Qed.

Lemma count_gets_app h h' :
  count_gets (h ++ h') = (count_gets h + count_gets h')%nat.
Proof. unfold count_gets. by rewrite filter_app, length_app. Qed.

Lemma count_gets_logged tail :
  Forall (fun ev => is_get ev = false) tail -> count_gets tail = 0%nat.
Proof.
  induction 1 as [|ev tail Hev _ IH]; [ done | ].
  change (ev :: tail) with ([ev] ++ tail). rewrite count_gets_app, IH.
  by destruct ev.
Qed.

Lemma count_gets_body lt c h tail :
  Forall (fun ev => is_get ev = false) tail ->
  count_gets (sent lt c h ++ tail) = S (count_gets h).
Proof.
  intros Htail. unfold asked.
  rewrite !count_gets_app, (count_gets_logged _ Htail).
  unfold count_gets at 2. simpl. lia.
Qed.

(** Every iteration issues a request: a run that is out of fuel has issued
    at least as many requests as it had iterations. *)
Lemma rest_of_run_count fuel rest n d c l h :
  (n <= fuel)%nat ->
  (rest_of_run n fuel d rest c l h).1.1 = OutOfFuel ->
  (n + count_gets h <= count_gets (rest_of_run n fuel d rest c l h).2)%nat.
Proof.
  pattern n, d, rest, c, l, h, (rest_of_run n fuel d rest c l h).
  revert rest n d c l h. apply rest_of_run_ind.
  - intros. simpl. lia.
  - intros n lt rn p rest c l h c' l' h' r Hb IH Hn Hout.
    destruct (loop_body_history env name payload ttq lt rn p c l h)
      as (tail & Htail & Hh').
    rewrite Hb in Hh'. subst h'.
    rewrite (count_gets_body _ _ _ _ Htail) in IH.
    specialize (IH ltac:(lia) Hout). lia.
  - intros n lt rn p rest c l h e0 l' h' e Hb Hend _ Hout. simpl in Hout.
    subst e. inversion Hend.
  - intros n lt rn p d rest c l h l' h' r Hb _ _ IH Hn Hout.
    destruct (loop_body_history env name payload ttq lt rn p c l h)
      as (tail & Htail & Hh').
    rewrite Hb in Hh'. subst h'.
    rewrite (count_gets_body _ _ _ _ Htail) in IH.
    specialize (IH ltac:(lia) Hout). lia.
Qed.





End MoreFacts.

Section MoreClaims.

Context (env : Env) (integration : Integration) (name : string) (timeout : Z).

Local Abbreviation payload := (channels_payload_of env integration).
Local Abbreviation ttq := (time_time env [] + timeout).
Local Abbreviation reply := (answer env payload).
Local Abbreviation sent := (asked env payload).
Local Abbreviation body := (loop_body env name payload ttq).

Lemma users_is_last fuel n rest c l h :
  stands_at fuel env integration name timeout n
    ("users", "members", MEMBER_PREFIX) rest c l h ->
  rest = [].
Proof.
  intros Hat. apply head_of_loop_suffix in Hat. destruct Hat as [k Hk].
  unfold list_types_of, LEGACY_LIST_TYPES, LIST_TYPES in Hk.
  destruct (slack_legacy_app env);
    destruct k as [|a [|b [|c' [|]]]]; by simplify_eq/=.
Qed.

Lemma run_from_head fuel n d rest c l h :
  stands_at fuel env integration name timeout n d rest c l h ->
  get_channel_id_with_timeout fuel env integration name timeout =
  in_progress env name payload ttq n fuel d rest c l h.
Proof. apply head_of_loop_run. Qed.

(** X1.  An answer with [ok] that lacks the list of the directory makes
    line 251 raise [KeyError]: the function returns nothing, and the history
    ends with the request. *)
Theorem missing_list_raises_key_error fuel n lt rn p rest c l h :
  stands_at fuel env integration name timeout (S n) (lt, rn, p) rest c l h ->
  resp_ok (reply lt c h) = true ->
  resp_lists (reply lt c h) !! rn = None ->
  get_channel_id_with_timeout fuel env integration name timeout =
    (Raise "KeyError", l, sent lt c h).
Proof.
  intros Hat Hok Hnone.
  assert (Hb : body lt rn p c l h = inr (Raise "KeyError", l, sent lt c h))
    by (unfold loop_body; rewrite Hok; simpl; by rewrite Hnone).
  unfold get_channel_id_with_timeout.
  by rewrite (run_exits _ _ _ _ _ _ _ _ _ _ _ _ _ _ _ Hat Hb).
Qed.

(** X2.  On the last page of the members directory, scanned within the
    deadline, when exactly one of the member entries delivered over all its
    pages has the target as display name and the page holds no entry whose
    [name] is the target, the function returns ["@"] with the id of that
    entry. *)
Theorem unique_display_name_is_returned fuel n rest c l h cs c0 :
  stands_at fuel env integration name timeout (S n)
    ("users", "members", MEMBER_PREFIX) rest c l h ->
  resp_ok (reply "users" c h) = true ->
  resp_lists (reply "users" c h) !! "members" = Some cs ->
  Forall (fun b => entry_name b <> name) cs ->
  truthy_cursor (cursor_of (reply "users" c h)) = None ->
  time_time env (sent "users" c h) <= ttq ->
  candidates name (sent "users" c h) = [c0] ->
  exists l',
    get_channel_id_with_timeout fuel env integration name timeout =
      (Return (MEMBER_PREFIX, Some (entry_id c0)), l', sent "users" c h).
Proof.
  intros Hat Hok Hcs Hnames Hlast Hclock Hone.
  exists (scan_items name "users" MEMBER_PREFIX cs l).2.
  destruct (members_page_tracked _ _ _ _ _ _ _ _ _ _ _ Hat Hok Hcs Hnames)
    as [Hid Hdup].
  rewrite Hone in Hid, Hdup. simpl in Hid, Hdup.
  pose proof (last_page_body env integration name timeout "users" "members"
                MEMBER_PREFIX c l h cs Hok Hcs Hnames Hclock Hlast) as Hb.
  unfold get_channel_id_with_timeout.
  rewrite (run_exits _ _ _ _ _ _ _ _ _ _ _ _ _ _ _ Hat Hb).
  cbn [after_pages]. by rewrite Hdup, Hid.
Qed.

(** X3.  On the last page of the members directory, scanned within the
    deadline, when no member entry delivered over all its pages has the
    target as display name and the page holds no entry whose [name] is the
    target, the function returns [("@", None)]: the members directory is the
    last of either table, and line 279 returns its prefix. *)
Theorem no_match_returns_member_prefix fuel n rest c l h cs :
  stands_at fuel env integration name timeout (S n)
    ("users", "members", MEMBER_PREFIX) rest c l h ->
  resp_ok (reply "users" c h) = true ->
  resp_lists (reply "users" c h) !! "members" = Some cs ->
  Forall (fun b => entry_name b <> name) cs ->
  truthy_cursor (cursor_of (reply "users" c h)) = None ->
  time_time env (sent "users" c h) <= ttq ->
  candidates name (sent "users" c h) = [] ->
  exists l',
    get_channel_id_with_timeout fuel env integration name timeout =
      (Return (MEMBER_PREFIX, None), l', sent "users" c h).
Proof.
  intros Hat Hok Hcs Hnames Hlast Hclock Hnone.
  exists (scan_items name "users" MEMBER_PREFIX cs l).2.
  destruct (members_page_tracked _ _ _ _ _ _ _ _ _ _ _ Hat Hok Hcs Hnames)
    as [Hid Hdup].
  rewrite Hnone in Hid, Hdup. simpl in Hid, Hdup.
  pose proof (last_page_body env integration name timeout "users" "members"
                MEMBER_PREFIX c l h cs Hok Hcs Hnames Hclock Hlast) as Hb.
  unfold get_channel_id_with_timeout.
  rewrite (run_exits _ _ _ _ _ _ _ _ _ _ _ _ _ _ _ Hat Hb).
  cbn [after_pages]. rewrite Hdup, Hid.
  by rewrite (users_is_last _ _ _ _ _ _ Hat).
Qed.

(** X4.  Pagination follows the cursor of the server: after a page scanned
    without a match on [name] and within the deadline (a clock that reads
    exactly the deadline is within it), whose answer names a next cursor,
    the execution stands at the head of the same loop with that cursor, and
    the next thing it does is to ask the same directory for the page at
    that cursor. *)
Theorem next_page_is_asked_at_next_cursor fuel n lt rn p rest c l h cs c' :
  stands_at fuel env integration name timeout (S (S n)) (lt, rn, p) rest c l h ->
  resp_ok (reply lt c h) = true ->
  resp_lists (reply lt c h) !! rn = Some cs ->
  Forall (fun b => entry_name b <> name) cs ->
  time_time env (sent lt c h) <= ttq ->
  truthy_cursor (cursor_of (reply lt c h)) = Some c' ->
  stands_at fuel env integration name timeout (S n) (lt, rn, p) rest c'
    (scan_items name lt p cs l).2 (sent lt c h) /\
  page_params payload c' !! "cursor" = Some (VStr c') /\
  exists tail,
    (get_channel_id_with_timeout fuel env integration name timeout).2 =
      sent lt c h ++
      Get (url_of lt) (page_params payload c') (reply lt c' (sent lt c h)) :: tail.
Proof.
  intros Hat Hok Hcs Hnames Hclock Hnext.
  assert (Hb : body lt rn p c l h =
            inl (c', (scan_items name lt p cs l).2, sent lt c h)).
  { unfold loop_body. rewrite Hok. simpl. rewrite Hcs.
    destruct (scan_items_no_match name lt p cs l Hnames) as [Hnone _].
    destruct (scan_items name lt p cs l) as [o l'].
    simpl in Hnone. subst o.
    apply Z.ltb_ge in Hclock. by rewrite Hclock, Hnext. }
  assert (Hat' : stands_at fuel env integration name timeout (S n) (lt, rn, p)
                   rest c' (scan_items name lt p cs l).2 (sent lt c h))
    by (eapply at_next_page; [ exact Hat | exact Hb ]).
  split; [ exact Hat' | ].
  split.
  { unfold page_params. rewrite lookup_insert_ne by done.
    by rewrite lookup_insert_eq. }
  rewrite (run_from_head _ _ _ _ _ _ _ Hat').
  destruct (rest_of_run_extends env name payload ttq fuel rest (S n)
              (lt, rn, p) c' (scan_items name lt p cs l).2 (sent lt c h))
    as (tail & -> & Hfirst).
  destruct Hfirst as [tail' ->]; [ done | ]. by exists tail'.
Qed.

(** X5.  When the last page of a directory other than the members directory
    has been scanned without a match on [name] and within the deadline, and
    a directory is left in the table, the execution goes on to that
    directory: the next thing it does is to ask it for the page at the empty
    cursor.  Display names found on the way change nothing. *)
Theorem next_directory_is_asked_from_the_start
    fuel n lt rn p lt' rn' p' rest c l h cs :
  stands_at fuel env integration name timeout (S n) (lt, rn, p)
    ((lt', rn', p') :: rest) c l h ->
  lt <> "users" ->
  resp_ok (reply lt c h) = true ->
  resp_lists (reply lt c h) !! rn = Some cs ->
  Forall (fun b => entry_name b <> name) cs ->
  time_time env (sent lt c h) <= ttq ->
  truthy_cursor (cursor_of (reply lt c h)) = None ->
  exists tail,
    (get_channel_id_with_timeout fuel env integration name timeout).2 =
      sent lt c h ++
      Get (url_of lt') (page_params payload "") (reply lt' "" (sent lt c h)) :: tail.
Proof.
  intros Hat Hlt Hok Hcs Hnames Hclock Hlast.
  pose proof (last_page_body env integration name timeout lt rn p c l h cs
                Hok Hcs Hnames Hclock Hlast) as Hb.
  destruct (at_head_bookkeeping _ _ _ _ _ _ _ _ _ _ _ Hat) as (Hbk & Hnone & _).
  destruct (scan_items_other name lt p cs l Hlt) as [Hid Hdup].
  rewrite (Hnone Hlt) in Hid.
  assert (Hdup' : found_duplicate (scan_items name lt p cs l).2 = false).
  { rewrite Hdup. destruct Hbk as [Hbk1 Hbk2]. rewrite (Hnone Hlt) in Hbk1.
    rewrite Hbk2. destruct (candidates name h); [ done | done ]. }
  assert (Hat' : stands_at fuel env integration name timeout fuel (lt', rn', p')
                   rest "" (scan_items name lt p cs l).2 (sent lt c h))
    by (eapply at_next_list_type; eauto).
  rewrite (run_from_head _ _ _ _ _ _ _ Hat').
  destruct (rest_of_run_extends env name payload ttq fuel rest fuel
              (lt', rn', p') "" (scan_items name lt p cs l).2 (sent lt c h))
    as (tail & -> & Hfirst).
  destruct Hfirst as [tail' ->]; [ | by exists tail' ].
  apply head_of_loop_fuel_left in Hat. lia.
Qed.

(** X6.  Display names count in the members directory only: as long as the
    execution is in another directory, nothing is recorded and no member
    entry has been delivered, whatever the profiles of the entries scanned
    so far say. *)
Theorem nothing_is_recorded_outside_members fuel n lt rn p rest c l h :
  stands_at fuel env integration name timeout n (lt, rn, p) rest c l h ->
  lt <> "users" ->
  id_data l = None /\ found_duplicate l = false /\ candidates name h = [].
Proof.
  intros Hat Hlt.
  destruct (at_head_bookkeeping _ _ _ _ _ _ _ _ _ _ _ Hat)
    as ([Hbk1 Hbk2] & Hnone & _).
  rewrite (Hnone Hlt) in Hbk1.
  destruct (candidates name h) as [|c0 m]; [ | done ].
  by rewrite Hbk2, (Hnone Hlt).
Qed.

End MoreClaims.

Section RunInvariants.

Context (env : Env) (integration : Integration) (name : string) (timeout : Z).

Local Abbreviation payload := (channels_payload_of env integration).
Local Abbreviation ttq := (time_time env [] + timeout).

Lemma run_is_rest_of_run fuel :
  exists d rest,
    list_types_of env = d :: rest /\
    get_channel_id_with_timeout fuel env integration name timeout =
    in_progress env name payload ttq fuel fuel d rest "" initial_locals [].
Proof.
  unfold get_channel_id_with_timeout.
  destruct (list_types_cons env) as (d & rest & Hlts).
  exists d, rest. split; [ done | ]. rewrite Hlts. apply dirs_cons.
Qed.

(** X7.  Every request of a run, to whichever directory, carries the same
    payload: the access token of the integration, [exclude_archived] and
    [exclude_members] set, a cursor, and the filter on types exactly in the
    current mode.  The requests to [users.list] are no exception. *)
Theorem every_request_carries_the_payload fuel :
  Forall (carries_payload env integration)
    (get_channel_id_with_timeout fuel env integration name timeout).2.
Proof.
  destruct (run_is_rest_of_run fuel) as (d & rest & _ & ->).
  apply rest_of_run_requests; [ | by intros [] | done ].
  intros lt cursor resp. unfold carries_payload, page_params.
  rewrite !(lookup_insert_ne _ "limit") by done.
  rewrite !(lookup_insert_ne _ "cursor") by done.
  rewrite lookup_insert_eq.
  unfold channels_payload_of, base_channels_payload, token_payload.
  destruct (slack_legacy_app env).
  - repeat split; try done. by exists cursor.
  - rewrite !(lookup_insert_ne _ "types") by done.
    rewrite lookup_insert_eq.
    repeat split; try done. by exists cursor.
Qed.

(** X8.  One request per iteration: a run that has not returned when its
    [fuel] iterations are used up has issued at least [fuel] requests.  So a
    call that never returns asks without end. *)
Theorem out_of_fuel_after_as_many_requests fuel :
  (get_channel_id_with_timeout fuel env integration name timeout).1.1 = OutOfFuel ->
  (fuel <= count_gets
             (get_channel_id_with_timeout fuel env integration name timeout).2)%nat.
Proof.
  destruct (run_is_rest_of_run fuel) as (d & rest & _ & ->).
  intros Hout.
  pose proof (rest_of_run_count env name payload ttq fuel rest fuel d ""
                initial_locals [] ltac:(lia) Hout) as Hcount.
  unfold count_gets at 1 in Hcount. simpl in Hcount. lia.
Qed.

Lemma run_prefix fuel p o l h :
  get_channel_id_with_timeout fuel env integration name timeout =
    (Return (p, o), l, h) ->
  p = CHANNEL_PREFIX \/ p = MEMBER_PREFIX.
Proof.
  unfold get_channel_id_with_timeout. intros Hrun.
  destruct (list_types_cons env) as (d & rest & Hlts).
  pose proof Hrun as Hrun'. rewrite Hlts in Hrun'.
  apply run_cases in Hrun'. rewrite <- Hlts in Hrun'.
  destruct Hrun' as [[? _] | (n & lt & rn & p0 & rest' & c & l0 & h0 & e0 & Hat & Hb & Hend)];
    [ done | ].
  destruct (at_head_bookkeeping env integration name timeout _ _ _ _ _ _ _ Hat)
    as (Hbk & Hnone & Hin).
  assert (Hknown : known (lt, rn, p0)) by (apply Hin; left).
  assert (Hp0 : p0 = CHANNEL_PREFIX \/ p0 = MEMBER_PREFIX).
  { clear -Hknown. unfold known, LIST_TYPES, LEGACY_LIST_TYPES in Hknown.
    rewrite !elem_of_cons, !elem_of_nil in Hknown.
    destruct Hknown as [[H|[H|[]]] | [H|[H|[H|[]]]]]; inversion H; auto. }
  inversion Hend as [r | | | data Hdup Hid | ]; subst; try done.
  - destruct (loop_body_cases env name payload ttq lt rn p0 c l0 h0);
      inversion Hb; subst; try done.
    pose proof (scan_items_inv _ _ _ _ _ _ _ H1) as Hinv. simpl in Hinv.
    by destruct Hinv as (before & c0 & after & _ & _ & _ & [= -> _]).
  - destruct (loop_body_cases env name payload ttq lt rn p0 c l0 h0);
      inversion Hb; subst.
    edestruct (bookkeeping_scanned env name payload lt rn p0) as [[Htr _] Hsame];
      [ exact Hknown | exact Hbk | done.. | ].
    rewrite Hid in Htr.
    destruct (head (candidates name (asked env payload lt c h0))); [ | done ].
    simpl in Htr. injection Htr as -> _. by right.
Qed.

(** X10.  Whatever is returned, the prefix is ["#"] or ["@"], as the
    docstring says. *)
Theorem returned_prefix_is_hash_or_at fuel p o l h :
  get_channel_id_with_timeout fuel env integration name timeout =
    (Return (p, o), l, h) ->
  p = CHANNEL_PREFIX \/ p = MEMBER_PREFIX.
Proof. apply run_prefix. Qed.


End RunInvariants.

(** * Further properties of the form *)

Lemma lstrip_idem chars s : lstrip chars (lstrip chars s) = lstrip chars s.
Proof.
  induction s as [|a s IH]; simpl; [ done | ].
  destruct (string_mem a chars) eqn:Ha; [ exact IH | ].
  simpl. by rewrite Ha.
Qed.

Lemma all_in_prefix p :
  p = CHANNEL_PREFIX \/ p = MEMBER_PREFIX -> all_in strip_channel_chars p = true.
Proof. by intros [-> | ->]. Qed.

(** X12.  When the workspace of the form names no integration, no request
    is made.  With a workspace the form raises its validation error for the
    stripped channel; without one it fails at line 66 with a [TypeError],
    the prefix being [None].  (The workspace is a value of the choice field,
    the text of a number, so that [int(workspace)] at line 57 is defined.) *)
Theorem clean_without_integration fuel env integrations workspace channel_field :
  workspace ≫= (integrations !!.) = None ->
  clean fuel env integrations workspace channel_field =
    (match workspace with
     | Some _ =>
         CleanValidationError
           (lstrip strip_channel_chars (default EmptyString channel_field))
     | None => CleanRaise "TypeError"
     end, []).
Proof.
  intros Hnone. unfold clean, get_channel_id. rewrite Hnone.
  by destruct workspace.
Qed.

(** X13.  The prefix of the cleaned channel is that of the directory in
    which the name is found, not the one that was typed: when the lookup of
    the stripped name stands at a loop head whose page holds an entry of
    that name, the form returns the prefix of that directory followed by the
    stripped name, with the id of the entry, whatever ["#"] and ["@"] were
    typed in front. *)
Theorem clean_takes_the_prefix_of_the_directory
    fuel env integrations workspace integration raw pre
    n lt rn p rest c l h before c0 after :
  let stripped := lstrip strip_channel_chars raw in
  all_in strip_channel_chars pre = true ->
  workspace ≫= (integrations !!.) = Some integration ->
  stands_at fuel env integration stripped SLACK_DEFAULT_TIMEOUT (S n)
    (lt, rn, p) rest c l h ->
  resp_ok (answer env (channels_payload_of env integration) lt c h) = true ->
  resp_lists (answer env (channels_payload_of env integration) lt c h) !! rn =
    Some (before ++ c0 :: after) ->
  Forall (fun b => entry_name b <> stripped) before ->
  entry_name c0 = stripped ->
  clean fuel env integrations workspace (Some (pre +:+ raw)) =
    (CleanReturn (p +:+ stripped) (Some (entry_id c0)),
     asked env (channels_payload_of env integration) lt c h).
Proof.
  intros stripped Hpre Hint Hat Hok Hcs Hbefore Hc0.
  destruct (scan_items_found stripped lt p before c0 after l Hbefore Hc0)
    as (l' & Hscan & _).
  assert (Hb : loop_body env stripped (channels_payload_of env integration)
                 (time_time env [] + SLACK_DEFAULT_TIMEOUT) lt rn p c l h =
               inr (Return (p, Some (entry_id c0)), l',
                    asked env (channels_payload_of env integration) lt c h)).
  { unfold loop_body. rewrite Hok. simpl. by rewrite Hcs, Hscan. }
  unfold clean, get_channel_id. rewrite Hint. simpl.
  rewrite (lstrip_app _ _ _ Hpre). fold stripped.
  unfold get_channel_id_with_timeout.
  rewrite (run_exits _ _ _ _ _ _ _ _ _ _ _ _ _ _ _ Hat Hb).
  by destruct workspace.
Qed.

(** X14.  Whenever the resolver returns without an id (nothing found, an
    ambiguous display name, a failed request, the deadline), the form raises
    one and the same validation error, for the stripped channel.  (The
    workspace is a value of the choice field, as for X12.) *)
Theorem clean_rejects_an_absent_id
    fuel env integrations workspace integration channel_field p l h :
  let stripped := lstrip strip_channel_chars (default EmptyString channel_field) in
  workspace ≫= (integrations !!.) = Some integration ->
  get_channel_id_with_timeout fuel env integration stripped SLACK_DEFAULT_TIMEOUT =
    (Return (p, None), l, h) ->
  clean fuel env integrations workspace channel_field =
    (CleanValidationError stripped, h).
Proof.
  intros stripped Hint Hrun. unfold clean, get_channel_id.
  rewrite Hint. fold stripped. rewrite Hrun.
  by destruct workspace.
Qed.

(** X15.  Cleaning is idempotent: a channel that the form has returned,
    given to the form again, is returned unchanged, with the same id and
    after the same requests. *)
Theorem clean_is_idempotent fuel env integrations workspace channel_field ch cid h :
  clean fuel env integrations workspace channel_field = (CleanReturn ch cid, h) ->
  clean fuel env integrations workspace (Some ch) = (CleanReturn ch cid, h).
Proof.
  unfold clean, get_channel_id.
  destruct (workspace ≫= (integrations !!.)) as [integration|] eqn:Hint;
    [ | by destruct workspace ].
  destruct workspace as [w|]; [ | done ].
  set (stripped := lstrip strip_channel_chars (default EmptyString channel_field)).
  destruct (get_channel_id_with_timeout fuel env integration stripped
              SLACK_DEFAULT_TIMEOUT) as [[e l] h'] eqn:Hrun.
  destruct e as [[p [i|]] | exn | | ]; try done.
  intros [= <- <- <-]. simpl.
  pose proof (run_prefix _ _ _ _ _ _ _ _ _ Hrun) as Hp.
  rewrite (lstrip_app _ _ _ (all_in_prefix _ Hp)).
  unfold stripped. rewrite lstrip_idem. fold stripped. by rewrite Hrun.
Qed.

(** * Properties of the action *)

Lemma split_cons sep s : exists piece pieces, split sep s = piece :: pieces.
Proof.
  destruct s as [|a s]; simpl; [ eauto | ].
  destruct (decide (a = sep)); [ eauto | ].
  destruct (split sep s); eauto.
Qed.

Lemma split_length sep s : length (split sep s) = S (count_char sep s).
Proof.
  induction s as [|a s IH]; simpl; [ done | ].
  destruct (decide (a = sep)); simpl; [ by rewrite IH | ].
  destruct (split_cons sep s) as (piece & pieces & Hs).
  rewrite Hs in *. exact IH.
Qed.

Lemma split_no_sep sep s :
  Forall (fun piece => string_mem sep piece = false) (split sep s).
Proof.
  induction s as [|a s IH]; simpl; [ by constructor | ].
  destruct (decide (a = sep)) as [->|Ha]; [ by constructor | ].
  destruct (split_cons sep s) as (piece & pieces & Hs).
  rewrite Hs in *. inversion IH as [|? ? Hpiece Hpieces]; subst.
  constructor; [ | done ]. simpl.
  rewrite decide_False by congruence. done.
Qed.

Lemma lstrip_mem chars a s :
  string_mem a s = false -> string_mem a (lstrip chars s) = false.
Proof.
  induction s as [|b s IH]; simpl; [ done | ].
  destruct (decide (a = b)); [ done | ]. intros Hs.
  destruct (string_mem b chars); [ by apply IH | ].
  simpl. by rewrite decide_False.
Qed.

Lemma rstrip_mem chars a s :
  string_mem a s = false -> string_mem a (rstrip chars s) = false.
Proof.
  induction s as [|b s IH]; simpl; [ done | ].
  destruct (decide (a = b)) as [|Hab]; [ done | ]. intros Hs.
  specialize (IH Hs).
  destruct (rstrip chars s) as [|b' r].
  - destruct (string_mem b chars); simpl; [ done | by rewrite decide_False ].
  - cbn [string_mem]. by rewrite decide_False.
Qed.

Lemma lstrip_starts chars s : starts_in chars (lstrip chars s) = false.
Proof.
  induction s as [|a s IH]; simpl; [ done | ].
  destruct (string_mem a chars) eqn:Ha; [ exact IH | ]. exact Ha.
Qed.

Lemma rstrip_starts chars s :
  starts_in chars s = false -> starts_in chars (rstrip chars s) = false.
Proof.
  destruct s as [|a s]; simpl; [ done | ]. intros Ha.
  destruct (rstrip chars s); [ by rewrite Ha | exact Ha ].
Qed.

Lemma rstrip_ends chars s : ends_in chars (rstrip chars s) = false.
Proof.
  induction s as [|a s IH]; simpl; [ done | ].
  destruct (rstrip chars s) as [|b r].
  - destruct (string_mem a chars) eqn:Ha; [ done | ]. simpl. exact Ha.
  - exact IH.
Qed.

(** X16.  There are as many tags as commas in the option, and one more; in
    particular the list is never empty, and a rule without tags has the one
    tag [""]. *)
Theorem tags_are_one_more_than_commas whitespace options :
  length (get_tags_list whitespace options) =
    S (count_char "," (default EmptyString (option_tags options))).
Proof. unfold get_tags_list. by rewrite length_fmap, split_length. Qed.

Lemma lstrip_id chars s : starts_in chars s = false -> lstrip chars s = s.
Proof. destruct s as [|a s]; simpl; [ done | ]. by intros ->. Qed.

Lemma rstrip_cons chars a s :
  rstrip chars (String a s) =
  match rstrip chars s with
  | EmptyString => if string_mem a chars then EmptyString else String a EmptyString
  | rest => String a rest
  end.
Proof. done. Qed.

Lemma rstrip_id chars s : ends_in chars s = false -> rstrip chars s = s.
Proof.
  induction s as [|a s IH]; [ done | ].
  destruct s as [|b s].
  - simpl. by intros ->.
  - intros Hs. rewrite rstrip_cons. by rewrite (IH Hs).
Qed.

Lemma strip_idem chars s : strip chars (strip chars s) = strip chars s.
Proof.
  unfold strip.
  rewrite (lstrip_id chars (rstrip chars (lstrip chars s)))
    by apply rstrip_starts, lstrip_starts.
  apply rstrip_id, rstrip_ends.
Qed.

Lemma split_piece sep piece :
  string_mem sep piece = false -> split sep piece = [piece].
Proof.
  induction piece as [|a piece IH]; simpl; [ done | ].
  destruct (decide (sep = a)) as [|Ha]; [ done | ]. intros Hp.
  rewrite decide_False by congruence. by rewrite (IH Hp).
Qed.

Lemma split_app_sep sep piece s :
  string_mem sep piece = false ->
  split sep (piece +:+ String sep s) = piece :: split sep s.
Proof.
  induction piece as [|a piece IH]; simpl.
  - intros _. change (split sep (String sep s) = EmptyString :: split sep s).
    simpl. by rewrite decide_True.
  - destruct (decide (sep = a)) as [|Ha]; [ done | ]. intros Hp.
    change (split sep (String a (piece +:+ String sep s)) =
            String a piece :: split sep s).
    simpl. rewrite decide_False by congruence. by rewrite (IH Hp).
Qed.

Lemma split_join sep piece pieces :
  Forall (fun piece => string_mem sep piece = false) (piece :: pieces) ->
  split sep (join (String sep EmptyString) (piece :: pieces)) = piece :: pieces.
Proof.
  revert piece. induction pieces as [|piece' pieces IH]; intros piece Hall.
  - apply split_piece. by inversion Hall.
  - inversion Hall as [|? ? Hpiece Hrest]; subst.
    change (join (String sep EmptyString) (piece :: piece' :: pieces))
      with (piece +:+ String sep (join (String sep EmptyString) (piece' :: pieces))).
    by rewrite (split_app_sep _ _ _ Hpiece), (IH _ Hrest).
Qed.

(** X17.  The tags are in normal form: joined by commas and read again as a
    tags option, they come back as they are. *)
Theorem tags_read_back whitespace options :
  get_tags_list whitespace
    (mkOptions (option_workspace options) (option_channel_id options)
       (Some (join "," (get_tags_list whitespace options)))) =
  get_tags_list whitespace options.
Proof.
  unfold get_tags_list at 1. simpl.
  assert (Htags : Forall (fun tag => string_mem "," tag = false)
                    (get_tags_list whitespace options)).
  { unfold get_tags_list. rewrite Forall_fmap.
    eapply Forall_impl; [ apply split_no_sep | ].
    intros piece Hpiece. simpl. unfold strip.
    by apply rstrip_mem, lstrip_mem. }
  assert (Hlen : length (get_tags_list whitespace options) <> 0%nat).
  { unfold get_tags_list. rewrite length_fmap, split_length. lia. }
  destruct (get_tags_list whitespace options) as [|tag tags] eqn:Heq; [ done | ].
  rewrite (split_join _ _ _ Htags). rewrite <- Heq.
  unfold get_tags_list. rewrite <- list_fmap_compose.
  apply list_fmap_ext. intros i piece _. simpl. apply strip_idem.
Qed.

(** X18.  No tag holds a comma, and no tag starts or ends with a character
    that [strip()] removes. *)
Theorem tags_are_stripped whitespace options :
  Forall (fun tag => string_mem "," tag = false /\
                     starts_in whitespace tag = false /\
                     ends_in whitespace tag = false)
         (get_tags_list whitespace options).
Proof.
  unfold get_tags_list. rewrite Forall_fmap.
  eapply Forall_impl; [ apply split_no_sep | ].
  intros piece Hpiece. simpl. unfold strip. repeat split.
  - by apply rstrip_mem, lstrip_mem.
  - apply rstrip_starts, lstrip_starts.
  - apply rstrip_ends.
Qed.

Lemma key_parts id1 id2 ch1 ch2 :
  string_mem ":" id1 = false ->
  string_mem ":" id2 = false ->
  id1 +:+ ":" +:+ ch1 = id2 +:+ ":" +:+ ch2 ->
  id1 = id2 /\ ch1 = ch2.
Proof.
  revert id2. induction id1 as [|a id1 IH]; intros [|b id2] H1 H2 Heq.
  - change (String ":" ch1 = String ":" ch2) in Heq. by injection Heq as ->.
  - change (String ":" ch1 = String b (id2 +:+ ":" +:+ ch2)) in Heq.
    injection Heq as <- _. by vm_compute in H2.
  - change (String a (id1 +:+ ":" +:+ ch1) = String ":" ch2) in Heq.
    injection Heq as -> _. by vm_compute in H1.
  - change (String a (id1 +:+ ":" +:+ ch1) = String b (id2 +:+ ":" +:+ ch2))
      in Heq.
    injection Heq as -> Heq. simpl in H1, H2.
    destruct (decide (":"%char = b)); [ done | ].
    by destruct (IH _ H1 H2 Heq) as [-> ->].
Qed.

(** X19.  A notification is queued only for an event that is not ignored,
    for a workspace whose integration still exists, and for a channel id
    that is there and not empty; it carries that channel id, the access
    token of that integration and the key [slack:<workspace>:<channel id>].
    At most one is queued. *)
Theorem after_queues_only_what_can_be_sent
    whitespace is_ignored options integrations f :
  f ∈ (after whitespace is_ignored options integrations).1 ->
  is_ignored = false /\
  (after whitespace is_ignored options integrations).1 = [f] /\
  exists id integration,
    option_workspace options = Some id /\
    integrations !! id = Some integration /\
    option_channel_id options = Some (future_channel f) /\
    future_channel f <> EmptyString /\
    future_token f = access_token integration /\
    future_key f = "slack:" +:+ id +:+ ":" +:+ future_channel f.
Proof.
  unfold after. destruct is_ignored; [ by intros ?%elem_of_nil | ].
  destruct (option_workspace options) as [id|]; [ | by intros ?%elem_of_nil ].
  simpl. destruct (integrations !! id) as [integration|] eqn:Hint;
    [ | by intros ?%elem_of_nil ].
  destruct (option_channel_id options) as [channel|];
    [ | by intros ?%elem_of_nil ].
  destruct (decide (channel = EmptyString)); [ by intros ?%elem_of_nil | ].
  simpl. intros ->%list_elem_of_singleton. simpl.
  repeat split; [ done.. | ]. by exists id, integration.
Qed.

(** X20.  The key tells the targets apart: two queued notifications for
    workspaces whose ids hold no colon have the same key only when they go
    to the same workspace and the same channel id. *)
Theorem future_key_determines_the_target
    whitespace options1 options2 integrations1 integrations2 id1 id2 f1 f2 :
  f1 ∈ (after whitespace false options1 integrations1).1 ->
  f2 ∈ (after whitespace false options2 integrations2).1 ->
  option_workspace options1 = Some id1 ->
  option_workspace options2 = Some id2 ->
  string_mem ":" id1 = false ->
  string_mem ":" id2 = false ->
  future_key f1 = future_key f2 ->
  id1 = id2 /\ future_channel f1 = future_channel f2.
Proof.
  intros Hf1 Hf2 Hw1 Hw2 Hid1 Hid2 Hkey.
  assert (Hk : forall options integrations id f,
             f ∈ (after whitespace false options integrations).1 ->
             option_workspace options = Some id ->
             future_key f = "slack:" +:+ id +:+ ":" +:+ future_channel f).
  { intros options integrations id f. unfold after.
    destruct (option_workspace options) as [id'|]; [ | by intros ?%elem_of_nil ].
    simpl. destruct (integrations !! id'); [ | by intros ?%elem_of_nil ].
    destruct (option_channel_id options) as [channel|];
      [ | by intros ?%elem_of_nil ].
    destruct (decide (channel = EmptyString)); [ by intros ?%elem_of_nil | ].
    simpl. by intros ->%list_elem_of_singleton [= ->]. }
  rewrite (Hk _ _ _ _ Hf1 Hw1), (Hk _ _ _ _ Hf2 Hw2) in Hkey.
  apply (inj (String.app "slack:")) in Hkey.
  by apply key_parts.
Qed.

(** ** The further properties at work on the scripted worlds *)

Lemma missing_list_raises_key_error_witness :
  get_channel_id_with_timeout 1 listless_world the_integration "general" 30 =
    (Raise "KeyError", initial_locals,
     asked listless_world (channels_payload_of listless_world the_integration)
       "conversations" "" []).
Proof.
  refine (missing_list_raises_key_error listless_world the_integration "general"
            30 1 0 "conversations" "channels" "#" [("users", "members", "@")]
            "" initial_locals [] _ _ _).
  - apply at_start; reflexivity.
  - reflexivity.
  - reflexivity.
Defined.

Lemma unique_display_name_is_returned_witness :
  let w := single_member_world in
  let payload := channels_payload_of w the_integration in
  exists l',
    get_channel_id_with_timeout 1 w the_integration "jdoe" 30 =
      (Return ("@", Some "U1"), l',
       asked w payload "users" "" (asked w payload "conversations" "" [])).
Proof.
  intros w payload.
  refine (unique_display_name_is_returned w the_integration "jdoe" 30 1 0 []
            "" initial_locals (asked w payload "conversations" "" [])
            [member "a" "U1" "jdoe"; member "b" "U2" "other"]
            (member "a" "U1" "jdoe") _ _ _ _ _ _ _).
  - eapply (at_next_list_type _ _ _ _ _ _ 0 "conversations" "channels" "#"
              ("users", "members", "@") [] "" initial_locals []).
    + apply at_start; reflexivity.
    + reflexivity.
    + reflexivity.
    + reflexivity.
  - reflexivity.
  - reflexivity.
  - repeat constructor; discriminate.
  - reflexivity.
  - vm_compute. discriminate.
  - reflexivity.
Defined.

Lemma no_match_returns_member_prefix_witness :
  let w := single_member_world in
  let payload := channels_payload_of w the_integration in
  exists l',
    get_channel_id_with_timeout 1 w the_integration "nobody" 30 =
      (Return ("@", None), l',
       asked w payload "users" "" (asked w payload "conversations" "" [])).
Proof.
  intros w payload.
  refine (no_match_returns_member_prefix w the_integration "nobody" 30 1 0 []
            "" initial_locals (asked w payload "conversations" "" [])
            [member "a" "U1" "jdoe"; member "b" "U2" "other"] _ _ _ _ _ _ _).
  - eapply (at_next_list_type _ _ _ _ _ _ 0 "conversations" "channels" "#"
              ("users", "members", "@") [] "" initial_locals []).
    + apply at_start; reflexivity.
    + reflexivity.
    + reflexivity.
    + reflexivity.
  - reflexivity.
  - reflexivity.
  - repeat constructor; discriminate.
  - reflexivity.
  - vm_compute. discriminate.
  - reflexivity.
Defined.

Lemma next_page_is_asked_at_next_cursor_witness :
  let w := paged_members_world in
  let payload := channels_payload_of w the_integration in
  let h2 := asked w payload "users" "" (asked w payload "conversations" "" []) in
  exists tail,
    (get_channel_id_with_timeout 2 w the_integration "jdoe" 30).2 =
      h2 ++ Get (url_of "users") (page_params payload "p2")
              (answer w payload "users" "p2" h2) :: tail.
Proof.
  intros w payload h2.
  refine (proj2 (proj2 (next_page_is_asked_at_next_cursor w the_integration
            "jdoe" 30 2 0 "users" "members" "@" [] "" initial_locals
            (asked w payload "conversations" "" [])
            [member "a" "U1" "jdoe"; member "b" "U2" "jdoe"] "p2" _ _ _ _ _ _))).
  - eapply (at_next_list_type _ _ _ _ _ _ 1 "conversations" "channels" "#"
              ("users", "members", "@") [] "" initial_locals []).
    + apply at_start; reflexivity.
    + reflexivity.
    + reflexivity.
    + reflexivity.
  - reflexivity.
  - reflexivity.
  - repeat constructor; discriminate.
  - vm_compute. discriminate.
  - reflexivity.
Defined.

Lemma next_directory_is_asked_from_the_start_witness :
  let w := single_member_world in
  let payload := channels_payload_of w the_integration in
  let h1 := asked w payload "conversations" "" [] in
  exists tail,
    (get_channel_id_with_timeout 1 w the_integration "jdoe" 30).2 =
      h1 ++ Get (url_of "users") (page_params payload "")
              (answer w payload "users" "" h1) :: tail.
Proof.
  intros w payload h1.
  refine (next_directory_is_asked_from_the_start w the_integration "jdoe" 30
            1 0 "conversations" "channels" "#" "users" "members" "@" [] ""
            initial_locals [] [] _ _ _ _ _ _ _).
  - apply at_start; reflexivity.
  - discriminate.
  - reflexivity.
  - reflexivity.
  - constructor.
  - vm_compute. discriminate.
  - reflexivity.
Defined.

Lemma nothing_is_recorded_outside_members_witness :
  let w := legacy_profile_world in
  let payload := channels_payload_of w the_integration in
  let h1 := asked w payload "channels" "" [] in
  stands_at 1 w the_integration "jdoe" 30 1 ("groups", "groups", "#")
    [("users", "members", "@")] "" (mkLocals None false 1) h1 /\
  candidates "jdoe" h1 = [].
Proof.
  intros w payload h1.
  assert (Hat : stands_at 1 w the_integration "jdoe" 30 1 ("groups", "groups", "#")
                  [("users", "members", "@")] "" (mkLocals None false 1) h1).
  { eapply (at_next_list_type _ _ _ _ _ _ 0 "channels" "channels" "#"
              ("groups", "groups", "#") [("users", "members", "@")] ""
              initial_locals []).
    - apply at_start; reflexivity.
    - reflexivity.
    - reflexivity.
    - reflexivity. }
  split; [ exact Hat | ].
  refine (proj2 (proj2 (nothing_is_recorded_outside_members w the_integration
            "jdoe" 30 1 1 "groups" "groups" "#" _ "" _ h1 Hat _))).
  discriminate.
Defined.

Lemma out_of_fuel_after_as_many_requests_witness :
  (3 <= count_gets
          (get_channel_id_with_timeout 3 jammed_world the_integration "general" 30).2)%nat.
Proof.
  exact (out_of_fuel_after_as_many_requests jammed_world the_integration
           "general" 30 3 eq_refl).
Defined.

Lemma returned_prefix_is_hash_or_at_witness :
  "#" = CHANNEL_PREFIX \/ "#" = MEMBER_PREFIX.
Proof.
  set (r := get_channel_id_with_timeout 1 legacy_world the_integration "general" 30).
  exact (returned_prefix_is_hash_or_at legacy_world the_integration "general" 30
           1 "#" (Some "C1") r.1.2 r.2 eq_refl).
Defined.

Lemma clean_without_integration_witness :
  clean 1 legacy_world the_integrations None (Some "#general") =
    (CleanRaise "TypeError", []) /\
  clean 1 legacy_world the_integrations (Some "2") (Some "#general") =
    (CleanValidationError "general", []).
Proof.
  split.
  - exact (clean_without_integration 1 legacy_world the_integrations None
             (Some "#general") eq_refl).
  - exact (clean_without_integration 1 legacy_world the_integrations (Some "2")
             (Some "#general") eq_refl).
Defined.

Lemma clean_takes_the_prefix_of_the_directory_witness :
  clean 1 legacy_world the_integrations (Some "1") (Some "@general") =
    (CleanReturn "#general" (Some "C1"),
     asked legacy_world (channels_payload_of legacy_world the_integration)
       "channels" "" []).
Proof.
  refine (clean_takes_the_prefix_of_the_directory 1 legacy_world the_integrations
            (Some "1") the_integration "general" "@" 0 "channels" "channels" "#"
            [("groups", "groups", "#"); ("users", "members", "@")] ""
            initial_locals [] [] (channel "general" "C1") [] _ _ _ _ _ _ _).
  - reflexivity.
  - reflexivity.
  - apply at_start; reflexivity.
  - reflexivity.
  - reflexivity.
  - constructor.
  - reflexivity.
Defined.

Lemma clean_rejects_an_absent_id_witness :
  let r := get_channel_id_with_timeout 1 failing_world the_integration "general"
             SLACK_DEFAULT_TIMEOUT in
  clean 1 failing_world the_integrations (Some "1") (Some "#general") =
    (CleanValidationError "general", r.2).
Proof.
  intros r.
  exact (clean_rejects_an_absent_id 1 failing_world the_integrations (Some "1")
           the_integration (Some "#general") "#" r.1.2 r.2 eq_refl eq_refl).
Defined.

Lemma clean_is_idempotent_witness :
  let r := clean 1 legacy_world the_integrations (Some "1") (Some "@general") in
  clean 1 legacy_world the_integrations (Some "1") (Some "#general") =
    (CleanReturn "#general" (Some "C1"), r.2).
Proof.
  intros r.
  exact (clean_is_idempotent 1 legacy_world the_integrations (Some "1")
           (Some "@general") "#general" (Some "C1") r.2 eq_refl).
Defined.

Lemma after_queues_only_what_can_be_sent_witness :
  let f := mkFuture "slack:1:C1" "xoxb-token" "C1"
             (list_to_set (get_tags_list ascii_whitespace the_options)) in
  (after ascii_whitespace false the_options the_integrations).1 = [f].
Proof.
  intros f.
  refine (proj1 (proj2 (after_queues_only_what_can_be_sent ascii_whitespace false
                          the_options the_integrations f _))).
  apply list_elem_of_singleton. reflexivity.
Defined.

Lemma future_key_determines_the_target_witness :
  let f1 := mkFuture "slack:1:C1" "xoxb-token" "C1"
              (list_to_set (get_tags_list ascii_whitespace the_options)) in
  let f2 := mkFuture "slack:1:C1" "xoxb-token" "C1"
              (list_to_set (get_tags_list ascii_whitespace other_options)) in
  "1" = "1" /\ future_channel f1 = future_channel f2.
Proof.
  intros f1 f2.
  refine (future_key_determines_the_target ascii_whitespace the_options
            other_options the_integrations the_integrations "1" "1" f1 f2
            _ _ _ _ _ _ _).
  - apply list_elem_of_singleton. reflexivity.
  - apply list_elem_of_singleton. reflexivity.
  - reflexivity.
  - reflexivity.
  - reflexivity.
  - reflexivity.
  - reflexivity.
Defined.

(** The tags of the scripted rule. *)
Example tags_of_the_options :
  get_tags_list ascii_whitespace the_options = ["environment"; "user"; ""; "my_tag"] /\
  get_tags_list ascii_whitespace other_options = [""].
Proof. split; reflexivity. Qed.

(** ** A retry-after header that line 245 refuses *)

Section RefusedHeader.

Context (env : Env) (integration : Integration) (name : string) (timeout : Z).

Local Abbreviation payload := (channels_payload_of env integration).
Local Abbreviation ttq := (time_time env [] + timeout).
Local Abbreviation reply := (answer env payload).
Local Abbreviation sent := (asked env payload).
Local Abbreviation body := (loop_body env name payload ttq).

(** X21.  A rate limited answer whose retry-after header spells no duration
    that can be slept (text that is not a number, nan or an infinity, or a
    negative number) makes line 245 raise, after the two lines logged at
    243-244: the function returns nothing, does not sleep and does not ask
    again. *)
Theorem refused_retry_after_raises fuel n lt rn p rest c l h retry_after :
  stands_at fuel env integration name timeout (S n) (lt, rn, p) rest c l h ->
  resp_ok (reply lt c h) = false ->
  resp_retry_after (reply lt c h) = Some retry_after ->
  retry_after = NotANumber \/ retry_after = NotFinite \/
    (exists d, retry_after = Seconds d /\ d < 0) ->
  exists exn,
    get_channel_id_with_timeout fuel env integration name timeout =
      (Raise exn, l, sent lt c h ++ rate_limited_logs lt).
Proof.
  intros Hat Hok Hretry Hbad.
  assert (Hsleep : exists exn, sleep_length retry_after = inl exn).
  { destruct Hbad as [-> | [-> | (d & -> & Hd)]]; simpl; eauto.
    apply Z.ltb_lt in Hd. rewrite Hd. eauto. }
  destruct Hsleep as [exn Hsleep]. exists exn.
  assert (Hb : body lt rn p c l h =
            inr (Raise exn, l, sent lt c h ++ rate_limited_logs lt))
    by (unfold loop_body; rewrite Hok; simpl; by rewrite Hretry, Hsleep).
  unfold get_channel_id_with_timeout.
  by rewrite (run_exits _ _ _ _ _ _ _ _ _ _ _ _ _ _ _ Hat Hb).
Qed.

End RefusedHeader.

Lemma refused_retry_after_raises_witness :
  (exists exn,
      get_channel_id_with_timeout 2 negative_header_world the_integration
        "general" 30 =
        (Raise exn, initial_locals,
         asked negative_header_world
           (channels_payload_of negative_header_world the_integration)
           "conversations" "" [] ++ rate_limited_logs "conversations")) /\
  (exists exn,
      get_channel_id_with_timeout 2 dated_header_world the_integration
        "general" 30 =
        (Raise exn, initial_locals,
         asked dated_header_world
           (channels_payload_of dated_header_world the_integration)
           "conversations" "" [] ++ rate_limited_logs "conversations")).
Proof.
  split.
  - refine (refused_retry_after_raises negative_header_world the_integration
              "general" 30 2 1 "conversations" "channels" "#"
              [("users", "members", "@")] "" initial_locals [] (Seconds (-5))
              _ _ _ _).
    + apply at_start; reflexivity.
    + reflexivity.
    + reflexivity.
    + right. right. exists (-5). split; reflexivity.
  - refine (refused_retry_after_raises dated_header_world the_integration
              "general" 30 2 1 "conversations" "channels" "#"
              [("users", "members", "@")] "" initial_locals [] NotANumber
              _ _ _ _).
    + apply at_start; reflexivity.
    + reflexivity.
    + reflexivity.
    + by left.
Defined.

(** On the world whose header spells -5 nothing is slept. *)
Example nothing_slept_on_a_negative_header :
  sleeps (get_channel_id_with_timeout 2 negative_header_world the_integration
            "general" 30).2 = [] /\
  (get_channel_id_with_timeout 2 negative_header_world the_integration
     "general" 30).1.1 = Raise "IOError".
Proof. split; reflexivity. Qed.
